(** * go-ssh-lib: the buffered read-until engine and the agent wrapper

    A shallow embedding of [sshlib.go] (type [SSHLib]) and of the agent file
    (type [SSHAgent]).  Everything outside the package -- the wall clock, the
    goroutine that feeds the [Data] channel, the SSH transport and package
    [regexp] -- is an explicit input: the clock, the channel and the dialer
    are traces consumed by the calls, the regular-expression engine is an
    interface with the two laws its documentation promises. *)

From Stdlib Require Import ZArith List String Ascii Bool Lia.
Import ListNotations.

Local Open Scope string_scope.
Local Open Scope Z_scope.

(** ** Go strings: byte sequences, [len], slicing, package [strings] *)

Definition len (s : string) : Z := Z.of_nat (String.length s).

(** The line feed, Go's ["\n"]. *)
Definition nl : string := String (ascii_of_nat 10) EmptyString.

Fixpoint take (n : nat) (s : string) : string :=
  match n, s with
  | S n', String c s' => String c (take n' s')
  | _, _ => EmptyString
  end.

Fixpoint drop (n : nat) (s : string) : string :=
  match n, s with
  | S n', String _ s' => drop n' s'
  | _, _ => s
  end.

(** [s[lo:hi]]; [None] is the run-time panic "slice bounds out of range". *)
Definition slice (s : string) (lo hi : Z) : option string :=
  if (0 <=? lo) && (lo <=? hi) && (hi <=? len s)
  then Some (take (Z.to_nat (hi - lo)) (drop (Z.to_nat lo) s))
  else None.

Module strings.

(** [strings.HasPrefix]: [s] begins with [prefix]. *)
Fixpoint HasPrefix (s prefix : string) {struct prefix} : bool :=
  match prefix, s with
  | EmptyString, _ => true
  | String p prefix', String c s' => Ascii.eqb c p && HasPrefix s' prefix'
  | String _ _, EmptyString => false
  end.

(** Position of the first occurrence of [substr] in [s], as a natural. *)
Fixpoint indexNat (s substr : string) : option nat :=
  if HasPrefix s substr then Some O
  else match s with
       | EmptyString => None
       | String _ s' => option_map S (indexNat s' substr)
       end.

(** [strings.Index]: the first occurrence, or -1. *)
Definition Index (s substr : string) : Z :=
  match indexNat s substr with
  | Some i => Z.of_nat i
  | None => -1
  end.

(** [strings.Contains] is [Index(s, substr) >= 0]. *)
Definition Contains (s substr : string) : bool := 0 <=? Index s substr.

(** [genSplit] for a non-empty separator: cut at each successive
    occurrence.  Every cut removes at least one byte, so the length of
    the input bounds the number of cuts. *)
Fixpoint genSplit (fuel : nat) (s sep : string) : list string :=
  match fuel, indexNat s sep with
  | S fuel', Some m =>
      take m s :: genSplit fuel' (drop (m + String.length sep) s) sep
  | _, _ => [s]
  end.

(** [explode], restricted to one-byte characters. *)
Fixpoint explode (s : string) : list string :=
  match s with
  | EmptyString => []
  | String c s' => String c EmptyString :: explode s'
  end.

(** [strings.Split].  With the empty separator Go splits after each
    UTF-8 sequence; the package only ever splits at ["\n"]. *)
Definition Split (s sep : string) : list string :=
  match sep with
  | EmptyString => explode s
  | _ => genSplit (String.length s) s sep
  end.

(** [strings.Join]. *)
Fixpoint Join (elems : list string) (sep : string) : string :=
  match elems with
  | [] => EmptyString
  | [e] => e
  | e :: rest => e ++ sep ++ Join rest sep
  end.

End strings.

(** ** int64 arithmetic *)

Definition wrap64 (z : Z) : Z := (z + 2 ^ 63) mod 2 ^ 64 - 2 ^ 63.

(** ** Package [regexp]

    The engine is not part of the repository.  [Compile] answers [None]
    for the pattern it rejects (Go: a nil [*Regexp] and a non-nil error),
    [FindStringIndex] answers [None] for Go's nil slice and
    [Some (loc0, loc1)] for the two-element slice of the leftmost match.
    The two laws are the documented contract: [MatchString] reports whether
    there is a match, and a location is a pair of offsets into the text. *)

Class RegexpEngine : Type := {
  Regexp : Type;
  Compile : string -> option Regexp;
  MatchString : Regexp -> string -> bool;
  FindStringIndex : Regexp -> string -> option (Z * Z);
  MatchString_iff : forall re s,
    MatchString re s = true <-> FindStringIndex re s <> None;
  FindStringIndex_bounds : forall re s lo hi,
    FindStringIndex re s = Some (lo, hi) -> 0 <= lo <= hi /\ hi <= len s
}.

(** ** Errors *)

Inductive error : Type :=
| ErrNoConnection
| ErrNoMatch
| ErrLostConnection
| ErrNoPrompt
| ErrInvalidAgent
| ErrSyntax (expr : string).   (* the *syntax.Error of regexp.Compile *)

(** ** The session object and its surroundings *)

(** [SSHLib].  [Stdin] is [None] for the nil interface of a session that
    was never opened, otherwise the writes made so far, oldest first.
    [Conn], [Stdout] and [Data] are handles into the environment below. *)
Record SSHLib : Type := mkSSHLib {
  Host : string;
  Port : string;
  Buffer : string;
  User : string;
  Passwd : string;
  PromptReg : string;
  Stdin : option (list string);
  timeout : Z
}.

(** What the calls observe of the outside world, each field a trace that
    is consumed from the front:
    - [Clock]: the values returned by the successive [getTimestamp] calls;
    - [Chan]: what each [select] in [GetData] finds on [s.Data] -- a chunk
      sent by the [reader] goroutine, or nothing;
    - [Dial]: whether each attempt to dial and open a session succeeds. *)
Record Env : Type := mkEnv {
  Clock : list Z;
  Chan : list (option string);
  Dial : list bool
}.

Definition setBuffer (b : string) (s : SSHLib) : SSHLib :=
  mkSSHLib (Host s) (Port s) b (User s) (Passwd s) (PromptReg s) (Stdin s)
           (timeout s).

Definition setStdin (w : option (list string)) (s : SSHLib) : SSHLib :=
  mkSSHLib (Host s) (Port s) (Buffer s) (User s) (Passwd s) (PromptReg s) w
           (timeout s).

Definition setClock (c : list Z) (e : Env) : Env := mkEnv c (Chan e) (Dial e).
Definition setChan (c : list (option string)) (e : Env) : Env :=
  mkEnv (Clock e) c (Dial e).
Definition setDial (d : list bool) (e : Env) : Env := mkEnv (Clock e) (Chan e) d.

(** ** Computations: state, environment, panics

    A method with receiver type [St] is a function of the receiver and the
    environment.  [Panic] is a Go run-time panic; [Stuck] means the call
    asked the clock or the dialer for more than the trace holds. *)

Inductive Outcome (St A : Type) : Type :=
| Ok (a : A) (s : St) (e : Env)
| Panic (msg : string)
| Stuck.
Arguments Ok {St A} a s e.
Arguments Panic {St A} msg.
Arguments Stuck {St A}.

Definition M (St A : Type) : Type := St -> Env -> Outcome St A.

Definition ret {St A} (a : A) : M St A := fun s e => Ok a s e.

Definition bind {St A B} (m : M St A) (k : A -> M St B) : M St B :=
  fun s e =>
    match m s e with
    | Ok a s' e' => k a s' e'
    | Panic msg => Panic msg
    | Stuck => Stuck
    end.

Definition panic {St A} (msg : string) : M St A := fun _ _ => Panic msg.

Definition gets {St A} (f : St -> A) : M St A := fun s e => Ok (f s) s e.
Definition modify {St} (f : St -> St) : M St unit := fun s e => Ok tt (f s) e.
Definition getsEnv {St A} (f : Env -> A) : M St A := fun s e => Ok (f e) s e.

(** An operation that panics when it has no result. *)
Definition orPanic {St A} (msg : string) (o : option A) : M St A :=
  match o with
  | Some a => ret a
  | None => panic msg
  end.

Declare Scope go_scope.
Delimit Scope go_scope with go.
Notation "x <- m ;; k" := (bind m (fun x => k))
  (at level 61, m at next level, right associativity) : go_scope.
Notation "' pat <- m ;; k" := (bind m (fun x => match x with pat => k end))
  (at level 61, pat pattern, m at next level, right associativity) : go_scope.
Notation "m ;; k" := (bind m (fun _ => k))
  (at level 61, right associativity) : go_scope.
Local Open Scope go_scope.

Definition nilDeref : string := "invalid memory address or nil pointer dereference".
Definition sliceBounds : string := "slice bounds out of range".
Definition indexRange : string := "index out of range".

(** ** sshlib.go *)

(** [getTimestamp]: the next reading of the clock. *)
Definition getTimestamp : M SSHLib Z :=
  fun s e =>
    match Clock e with
    | [] => Stuck
    | t :: c => Ok t s (setClock c e)
    end.

(** [GetData]: one non-blocking receive; a chunk is appended to the buffer,
    otherwise the call sleeps 250ms and changes nothing. *)
Definition GetData : M SSHLib unit :=
  fun s e =>
    match Chan e with
    | Some data :: c => Ok tt (setBuffer (Buffer s ++ data) s) (setChan c e)
    | None :: c => Ok tt s (setChan c e)
    | [] => Ok tt s e
    end.

(** The loop guard [getTimestamp()-startTime < timeoutMs], given the reading. *)
Definition inTime (startTime timeoutMs now : Z) : bool :=
  wrap64 (now - startTime) <? timeoutMs.

(** The tail shared by the three readers: an empty [returnData] is replaced
    by the whole buffer, which is cleared; then the error is chosen. *)
Definition finish (returnData : string) (foundMatch : bool)
  : M SSHLib (string * option error) :=
  returnData <- (if String.eqb returnData ""
                 then buf <- gets Buffer ;;
                      modify (setBuffer "") ;;
                      ret buf
                 else ret returnData) ;;
  if negb foundMatch then ret (returnData, Some ErrNoMatch)
  else ret (returnData, None).

(** The [for] loop of [ReadUntil]; the result is [(returnData, foundMatch)]
    at the loop's exit.  Each turn reads the clock once, so the number of
    readings left bounds the number of turns. *)
Fixpoint ReadUntil_loop (turns : nat) (str : string) (startTime timeoutMs : Z)
  : M SSHLib (string * bool) :=
  match turns with
  | O => fun _ _ => Stuck
  | S turns' =>
      now <- getTimestamp ;;
      if inTime startTime timeoutMs now then
        buf <- gets Buffer ;;
        if strings.Contains buf str then
          let endRead := strings.Index buf str in
          returnData <- orPanic sliceBounds (slice buf 0 (endRead + len str)) ;;
          rest <- orPanic sliceBounds (slice buf endRead (len buf)) ;;
          modify (setBuffer rest) ;;
          ret (returnData, true)
        else
          GetData ;;
          ReadUntil_loop turns' str startTime timeoutMs
      else ret ("", false)
  end.

Definition ReadUntil (str : string) (timeout : Z)
  : M SSHLib (string * option error) :=
  startTime <- getTimestamp ;;
  let timeoutMs := wrap64 (wrap64 timeout * 1000) in
  turns <- getsEnv (fun e => List.length (Clock e)) ;;
  '(returnData, foundMatch) <- ReadUntil_loop turns str startTime timeoutMs ;;
  finish returnData foundMatch.

(** [Write]: the string and a line feed go to the session's standard input;
    the result of the write is ignored. *)
Definition Write (str : string) : M SSHLib unit :=
  stdin <- gets Stdin ;;
  match stdin with
  | None => panic nilDeref
  | Some written => modify (setStdin (Some (written ++ [(str ++ nl)%string])%list))
  end.

Definition WriteThenReadUntil (sendStr matchStr : string) (timeout : Z)
  : M SSHLib (string * option error) :=
  Write sendStr ;;
  ReadUntil matchStr timeout.

Section WithRegexp.

Context {engine : RegexpEngine}.

(** [re.FindStringIndex(buf)[1]] followed by the two slices of the buffer,
    as all the regular-expression readers do on a match. *)
Definition cutAtMatchEnd (re : Regexp) (buf : string) : M SSHLib string :=
  '(_, endRead) <- orPanic indexRange (FindStringIndex re buf) ;;
  returnData <- orPanic sliceBounds (slice buf 0 endRead) ;;
  rest <- orPanic sliceBounds (slice buf endRead (len buf)) ;;
  modify (setBuffer rest) ;;
  ret returnData.

(** The [for] loop of [ReadUntilRegex]. *)
Fixpoint ReadUntilRegex_loop (turns : nat) (cmpRe : Regexp)
    (startTime timeoutMs : Z) : M SSHLib (string * bool) :=
  match turns with
  | O => fun _ _ => Stuck
  | S turns' =>
      now <- getTimestamp ;;
      if inTime startTime timeoutMs now then
        buf <- gets Buffer ;;
        if MatchString cmpRe buf then
          returnData <- cutAtMatchEnd cmpRe buf ;;
          ret (returnData, true)
        else
          GetData ;;
          ReadUntilRegex_loop turns' cmpRe startTime timeoutMs
      else ret ("", false)
  end.

Definition ReadUntilRegex (regexStr : string) (timeout : Z)
  : M SSHLib (string * option error) :=
  startTime <- getTimestamp ;;
  let timeoutMs := wrap64 (wrap64 timeout * 1000) in
  match Compile regexStr with
  | None => ret ("", Some (ErrSyntax regexStr))
  | Some cmpRe =>
      turns <- getsEnv (fun e => List.length (Clock e)) ;;
      '(returnData, foundMatch) <-
         ReadUntilRegex_loop turns cmpRe startTime timeoutMs ;;
      finish returnData foundMatch
  end.

(** The inner [for i] loop of [ReadUntilRegexList]: every entry is tested
    in turn against the buffer as the entries before it left it.  An entry
    is [None] where [regexp.Compile] returned the nil pointer; a method
    call on it panics. *)
Fixpoint scanList (cmpReList : list (option Regexp)) (returnData : string)
    (foundMatch : bool) : M SSHLib (string * bool) :=
  match cmpReList with
  | [] => ret (returnData, foundMatch)
  | None :: _ => panic nilDeref
  | Some cmpRe :: rest =>
      buf <- gets Buffer ;;
      if MatchString cmpRe buf then
        returnData' <- cutAtMatchEnd cmpRe buf ;;
        scanList rest returnData' true
      else scanList rest returnData foundMatch
  end.

(** The outer loop; the clock is read only while [foundMatch] is false. *)
Fixpoint ReadUntilRegexList_loop (turns : nat)
    (cmpReList : list (option Regexp)) (startTime timeoutMs : Z)
    (returnData : string) : M SSHLib (string * bool) :=
  match turns with
  | O => fun _ _ => Stuck
  | S turns' =>
      now <- getTimestamp ;;
      if inTime startTime timeoutMs now then
        '(returnData', foundMatch) <- scanList cmpReList returnData false ;;
        if foundMatch then ret (returnData', true)
        else
          GetData ;;
          ReadUntilRegexList_loop turns' cmpReList startTime timeoutMs
                                  returnData'
      else ret (returnData, false)
  end.

Definition ReadUntilRegexList (regexList : list string) (timeout : Z)
  : M SSHLib (string * option error) :=
  startTime <- getTimestamp ;;
  let timeoutMs := wrap64 (wrap64 timeout * 1000) in
  let cmpReList := map Compile regexList in
  turns <- getsEnv (fun e => List.length (Clock e)) ;;
  '(returnData, foundMatch) <-
     ReadUntilRegexList_loop turns cmpReList startTime timeoutMs "" ;;
  finish returnData foundMatch.

(** [Open].  The dialer stands for [ssh.Dial] and [NewSession]; when both
    succeed the session gets fresh pipes and its [reader] goroutine, and
    the prompt is awaited for three seconds. *)
Definition Open : M SSHLib (option error) :=
  fun s e =>
    match Dial e with
    | [] => Stuck
    | false :: d => Ok (Some ErrNoConnection) s (setDial d e)
    | true :: d =>
        ('(_, err) <- ReadUntilRegex (PromptReg s) 3 ;;
         match err with
         | Some _ => ret (Some ErrNoPrompt)
         | None => ret None
         end) (setStdin (Some []) s) (setDial d e)
    end.

(** [CreateSSH]; the [Data] channel it makes is the environment's [Chan]. *)
Definition CreateSSH (host port user passwd promptReg : string) (timeout : Z)
  : SSHLib :=
  mkSSHLib host port "" user passwd promptReg None
           (wrap64 (wrap64 timeout * 1000000000)).

(** ** The agent

    [SSHAgent].  Its [Host], [Port], [User] and [Passwd] are copies of the
    fields of [Conn], written by [Create] and never read; they are left out. *)
Record SSHAgent : Type := mkSSHAgent {
  PromptRegex : string;
  Timeout : Z;
  Conn : SSHLib;
  Connected : bool
}.

Definition setConn (c : SSHLib) (a : SSHAgent) : SSHAgent :=
  mkSSHAgent (PromptRegex a) (Timeout a) c (Connected a).

Definition setConnected (b : bool) (a : SSHAgent) : SSHAgent :=
  mkSSHAgent (PromptRegex a) (Timeout a) (Conn a) b.

(** A method of [s.Conn] called from a method of the agent. *)
Definition onConn {A} (m : M SSHLib A) : M SSHAgent A :=
  fun a e =>
    match m (Conn a) e with
    | Ok x c e' => Ok x (setConn c a) e'
    | Panic msg => Panic msg
    | Stuck => Stuck
    end.

Definition Connect : M SSHAgent (option error) :=
  connected <- gets Connected ;;
  if negb connected then
    err <- onConn Open ;;
    match err with
    | Some err => ret (Some err)
    | None => modify (setConnected true) ;; ret None
    end
  else ret None.

Definition Create (host port user passwd promptRegex : string) (timeout : Z)
  : Env -> Outcome SSHAgent (option error) :=
  Connect (mkSSHAgent promptRegex timeout
             (CreateSSH host port user passwd promptRegex timeout) false).

Definition SendCommandNoWait (command : string) : M SSHAgent (option error) :=
  err <- Connect ;;
  match err with
  | Some _ => ret (Some ErrLostConnection)
  | None => onConn (Write command) ;; ret None
  end.

Definition SendCommand (command : string) : M SSHAgent (string * option error) :=
  err <- SendCommandNoWait command ;;
  match err with
  | Some _ => ret ("", Some ErrLostConnection)
  | None =>
      promptRegex <- gets PromptRegex ;;
      timeout <- gets Timeout ;;
      '(output, _) <- onConn (ReadUntilRegex promptRegex timeout) ;;
      ret (output, None)
  end.

Definition SendCommandStripCommand (command : string)
  : M SSHAgent (string * option error) :=
  '(output, err) <- SendCommand command ;;
  match err with
  | Some err => ret ("", Some err)
  | None =>
      match strings.Split output nl with
      | [] => panic indexRange
      | first :: rest =>
          if strings.Contains first command
          then ret (strings.Join rest nl, None)
          else ret (output, None)
      end
  end.

Definition SendCommandWaitForList (command : string) (regexList : list string)
  : M SSHAgent (string * option error) :=
  err <- SendCommandNoWait command ;;
  match err with
  | Some err => ret ("", Some err)
  | None =>
      promptRegex <- gets PromptRegex ;;
      timeout <- gets Timeout ;;
      let regexList := (regexList ++ [promptRegex])%list in
      '(output, err) <- onConn (ReadUntilRegexList regexList timeout) ;;
      match err with
      | Some err => ret (output, Some err)
      | None => ret (output, None)
      end
  end.

End WithRegexp.

(** ** Vocabulary of the statements *)

(** The bytes carried by a run of receive attempts. *)
Fixpoint received (attempts : list (option string)) : string :=
  match attempts with
  | [] => ""
  | Some data :: r => data ++ received r
  | None :: r => received r
  end.

(** The buffer as the [k]-th test of a read-until call finds it: the buffer
    at entry followed by what the [k] earlier turns received. *)
Definition bufferAt (s : SSHLib) (e : Env) (k : nat) : string :=
  Buffer s ++ received (firstn k (Chan e)).

(** The environment once [k] turns have failed and one more reading of the
    clock has been taken: the start reading, [k] guards and the next one. *)
Definition envAfter (e : Env) (k : nat) : Env :=
  mkEnv (skipn (S (S k)) (Clock e)) (skipn k (Chan e)) (Dial e).

(** The [k]-th reading of the loop guard (counting from 0) of a call entered
    in [e]: [Some true] when the body runs, [Some false] when the deadline
    has expired, [None] when the clock trace is too short to tell. *)
Definition guardAt (timeout : Z) (e : Env) (k : nat) : option bool :=
  match Clock e with
  | [] => None
  | startTime :: readings =>
      option_map (inTime startTime (wrap64 (wrap64 timeout * 1000)))
                 (nth_error readings k)
  end.

Definition isSomeTrue (o : option bool) : bool :=
  match o with
  | Some true => true
  | _ => false
  end.

(** The first [k] guards all let the body run. *)
Definition guardsPass (timeout : Z) (e : Env) (k : nat) : bool :=
  forallb (fun j => isSomeTrue (guardAt timeout e j)) (seq 0 k).

(** The buffer of each of the first [k] turns is [quiet]: the reader's test
    finds nothing in it. *)
Definition quietBefore (quiet : string -> bool) (s : SSHLib) (e : Env)
    (k : nat) : bool :=
  forallb (fun j => quiet (bufferAt s e j)) (seq 0 k).

Definition literalQuiet (str buf : string) : bool :=
  negb (strings.Contains buf str).

(** The first line of a text and what follows its line feed. *)
Fixpoint firstLine (s : string) : string :=
  match s with
  | EmptyString => ""
  | String c s' => if Ascii.eqb c (ascii_of_nat 10) then ""
                   else String c (firstLine s')
  end.

Fixpoint afterFirstLine (s : string) : string :=
  match s with
  | EmptyString => ""
  | String c s' => if Ascii.eqb c (ascii_of_nat 10) then s'
                   else afterFirstLine s'
  end.

(** ** A concrete engine: the literal fragment

    For running the readers on examples.  A pattern of ASCII characters
    none of which is a metacharacter of the RE2 syntax denotes itself, and
    package [regexp] finds its leftmost occurrence.  Every other pattern is
    outside the fragment and is rejected here; that is what package
    [regexp] does with the ill-formed ones among them, such as ["("]. *)

Definition isMeta (c : ascii) : bool :=
  existsb (Ascii.eqb c)
    (list_ascii_of_string "\.+*?()|[]{}^$").

Fixpoint isLiteral (p : string) : bool :=
  match p with
  | EmptyString => true
  | String c p' => negb (isMeta c) && (nat_of_ascii c <? 128)%nat && isLiteral p'
  end.

Definition litCompile (p : string) : option string :=
  if isLiteral p then Some p else None.

Definition litFindStringIndex (re s : string) : option (Z * Z) :=
  match strings.indexNat s re with
  | Some i => Some (Z.of_nat i, Z.of_nat i + len re)
  | None => None
  end.

Definition litMatchString (re s : string) : bool := strings.Contains s re.

(** An opened session holding [buffer], for the examples: prompt pattern
    ["> "], nothing written yet. *)
Definition sessionWith (buffer : string) : SSHLib :=
  setBuffer buffer
    (setStdin (Some []) (CreateSSH "host" "22" "user" "secret" "> " 1)).

(** ** The common shape of the three loops

    Each reader runs the same loop around its own test of the buffer: read
    the clock, leave when the deadline has expired, otherwise test; a test
    without a match is followed by [GetData] and another turn.  [poll] is
    that loop with the test as a parameter; a test answers [Some returnData]
    on a match.  The three loops above are shown to be instances of it. *)

Fixpoint poll (turns : nat) (test : M SSHLib (option string))
    (startTime timeoutMs : Z) : M SSHLib (string * bool) :=
  match turns with
  | O => fun _ _ => Stuck
  | S turns' =>
      now <- getTimestamp ;;
      if inTime startTime timeoutMs now then
        r <- test ;;
        match r with
        | Some returnData => ret (returnData, true)
        | None => GetData ;; poll turns' test startTime timeoutMs
        end
      else ret ("", false)
  end.

Definition literalTest (str : string) : M SSHLib (option string) :=
  buf <- gets Buffer ;;
  if strings.Contains buf str then
    let endRead := strings.Index buf str in
    returnData <- orPanic sliceBounds (slice buf 0 (endRead + len str)) ;;
    rest <- orPanic sliceBounds (slice buf endRead (len buf)) ;;
    modify (setBuffer rest) ;;
    ret (Some returnData)
  else ret None.

Definition regexTest {engine : RegexpEngine} (cmpRe : Regexp)
  : M SSHLib (option string) :=
  buf <- gets Buffer ;;
  if MatchString cmpRe buf then
    returnData <- cutAtMatchEnd cmpRe buf ;;
    ret (Some returnData)
  else ret None.

Definition listTest {engine : RegexpEngine} (cmpReList : list (option Regexp))
  : M SSHLib (option string) :=
  '(returnData, foundMatch) <- scanList cmpReList "" false ;;
  if foundMatch then ret (Some returnData) else ret None.

Definition regexQuiet {engine : RegexpEngine} (re : Regexp) (buf : string)
  : bool :=
  negb (MatchString re buf).

(** Every entry of the pattern list compiles and none matches [buf]. *)
Definition listQuiet {engine : RegexpEngine} (regexList : list string)
    (buf : string) : bool :=
  forallb (fun p => match Compile p with
                    | Some re => negb (MatchString re buf)
                    | None => false
                    end) regexList.

(** A test finds nothing in buffer [b] and leaves everything as it is. *)
Definition quietAt (test : M SSHLib (option string)) (s : SSHLib)
    (b : string) : Prop :=
  forall e, test (setBuffer b s) e = Ok None (setBuffer b s) e.

(** A reader around a test: the start reading, the loop, the common tail. *)
Definition readWith (test : M SSHLib (option string)) (timeout : Z)
  : M SSHLib (string * option error) :=
  startTime <- getTimestamp ;;
  let timeoutMs := wrap64 (wrap64 timeout * 1000) in
  turns <- getsEnv (fun e => List.length (Clock e)) ;;
  '(returnData, foundMatch) <- poll turns test startTime timeoutMs ;;
  finish returnData foundMatch.

(** Some reading of the loop guard of a call entered in [e] finds the
    deadline expired. *)
Definition deadlinePasses (timeout : Z) (e : Env) : bool :=
  match Clock e with
  | [] => false
  | startTime :: readings =>
      existsb (fun now =>
                 negb (inTime startTime (wrap64 (wrap64 timeout * 1000)) now))
              readings
  end.

(** Every pattern of the list compiles. *)
Definition allCompile {engine : RegexpEngine} (regexList : list string) : bool :=
  forallb (fun p => match Compile p with
                    | Some _ => true
                    | None => false
                    end) regexList.

(** [n] calls of [GetData] in a row. *)
Fixpoint GetDataTimes (n : nat) : M SSHLib unit :=
  match n with
  | O => ret tt
  | S n' => GetData ;; GetDataTimes n'
  end.

(** [SetConnected], [GetConnected] and [Login] of the agent. *)
Definition SetConnected (conFlag : bool) : M SSHAgent unit :=
  modify (setConnected conFlag).

Definition GetConnected : M SSHAgent bool := gets Connected.

Definition Login : M SSHAgent (option error) := ret None.

(** * Properties *)

(** ** Strings *)

Lemma append_nil_r (s : string) : s ++ "" = s.
Proof. induction s as [|c s IH]; simpl; [reflexivity | now rewrite IH]. Qed.

Lemma append_assoc (a b c : string) : (a ++ b) ++ c = a ++ b ++ c.
Proof. induction a as [|x a IH]; simpl; [reflexivity | now rewrite IH]. Qed.

Lemma take_drop (n : nat) (s : string) : take n s ++ drop n s = s.
Proof.
  revert s; induction n as [|n IH]; intros [|c s]; simpl; try reflexivity.
  now rewrite IH.
Qed.

Lemma length_drop (n : nat) (s : string) :
  String.length (drop n s) = (String.length s - n)%nat.
Proof.
  revert s; induction n as [|n IH]; intros [|c s]; simpl; auto.
Qed.

Lemma take_all (n : nat) (s : string) :
  (String.length s <= n)%nat -> take n s = s.
Proof.
  revert s; induction n as [|n IH]; intros [|c s]; simpl; intros Hl;
    try reflexivity; try lia.
  rewrite IH; [reflexivity | lia].
Qed.

Lemma slice_to (s : string) (hi : Z) :
  0 <= hi <= len s -> slice s 0 hi = Some (take (Z.to_nat hi) s).
Proof.
  intros Hb. unfold slice.
  replace ((0 <=? 0) && (0 <=? hi) && (hi <=? len s)) with true
    by (symmetry; rewrite !andb_true_iff, !Z.leb_le; lia).
  now rewrite Z.sub_0_r.
Qed.

Lemma slice_from (s : string) (lo : Z) :
  0 <= lo <= len s -> slice s lo (len s) = Some (drop (Z.to_nat lo) s).
Proof.
  intros Hb. unfold slice.
  replace ((0 <=? lo) && (lo <=? len s) && (len s <=? len s)) with true
    by (symmetry; rewrite !andb_true_iff, !Z.leb_le; lia).
  rewrite take_all; [reflexivity|].
  rewrite length_drop. unfold len in *. lia.
Qed.

Lemma HasPrefix_length (s sub : string) :
  strings.HasPrefix s sub = true -> (String.length sub <= String.length s)%nat.
Proof.
  revert s; induction sub as [|p sub IH]; intros [|c s]; simpl;
    try lia; try discriminate.
  rewrite andb_true_iff. intros [_ Hp]. apply IH in Hp. lia.
Qed.

Lemma HasPrefix_split (s sub : string) :
  strings.HasPrefix s sub = true -> s = sub ++ drop (String.length sub) s.
Proof.
  revert s; induction sub as [|p sub IH]; intros [|c s]; simpl;
    try reflexivity; try discriminate.
  rewrite andb_true_iff. intros [Hc Hp].
  apply Ascii.eqb_eq in Hc. subst p. now rewrite <- (IH s Hp).
Qed.

Lemma indexNat_bound (s sub : string) (i : nat) :
  strings.indexNat s sub = Some i ->
  (i + String.length sub <= String.length s)%nat.
Proof.
  revert i; induction s as [|c s IH]; intros i; cbn [strings.indexNat].
  - destruct (strings.HasPrefix "" sub) eqn:Hp; [|discriminate].
    intros [= <-]. now apply HasPrefix_length in Hp.
  - destruct (strings.HasPrefix (String c s) sub) eqn:Hp.
    + intros [= <-]. now apply HasPrefix_length in Hp.
    + destruct (strings.indexNat s sub) as [j|]; [|discriminate].
      intros [= <-]. specialize (IH j eq_refl). simpl. lia.
Qed.

(** At the index found, the text splits into what precedes the occurrence,
    the occurrence, and what follows it. *)
Lemma indexNat_split (s sub : string) (i : nat) :
  strings.indexNat s sub = Some i ->
  s = take i s ++ sub ++ drop (i + String.length sub) s.
Proof.
  revert i; induction s as [|c s IH]; intros i; cbn [strings.indexNat].
  - destruct (strings.HasPrefix "" sub) eqn:Hp; [|discriminate].
    intros [= <-]. cbn [take Nat.add append]. now apply HasPrefix_split.
  - destruct (strings.HasPrefix (String c s) sub) eqn:Hp.
    + intros [= <-]. cbn [take Nat.add append]. now apply HasPrefix_split.
    + destruct (strings.indexNat s sub) as [j|] eqn:Hj; [|discriminate].
      intros [= <-]. cbn [take drop Nat.add append].
      f_equal. now apply IH.
Qed.

Lemma Contains_indexNat (s sub : string) :
  strings.Contains s sub = true <->
  exists i, strings.indexNat s sub = Some i.
Proof.
  unfold strings.Contains, strings.Index.
  destruct (strings.indexNat s sub) as [i|]; split.
  - intros _. now exists i.
  - intros _. apply Z.leb_le. lia.
  - discriminate.
  - intros [i Hi]. discriminate.
Qed.

(** The examples of the documentation of package [strings]. *)
Example Index_chicken :
  strings.Index "chicken" "ken" = 4 /\ strings.Index "chicken" "dmr" = -1.
Proof. split; reflexivity. Qed.

Example Split_commas :
  strings.Split "a,b,c" "," = ["a"; "b"; "c"] /\
  strings.Split "a man a plan a canal panama" "a " =
    ["" ; "man "; "plan "; "canal panama"] /\
  strings.Split "" "Bernardo O'Higgins" = [""].
Proof. repeat split; reflexivity. Qed.

Example Join_foo : strings.Join ["foo"; "bar"; "baz"] ", " = "foo, bar, baz".
Proof. reflexivity. Qed.

(** ** The literal engine satisfies the contract *)

Lemma lit_MatchString_iff (re s : string) :
  litMatchString re s = true <-> litFindStringIndex re s <> None.
Proof.
  unfold litMatchString, litFindStringIndex. rewrite Contains_indexNat.
  destruct (strings.indexNat s re) as [i|]; split; try congruence.
  - intros _. now exists i.
  - intros [i Hi]. discriminate.
Qed.

Lemma lit_FindStringIndex_bounds (re s : string) (lo hi : Z) :
  litFindStringIndex re s = Some (lo, hi) -> 0 <= lo <= hi /\ hi <= len s.
Proof.
  unfold litFindStringIndex.
  destruct (strings.indexNat s re) as [i|] eqn:Hi; [|discriminate].
  intros [= <- <-]. apply indexNat_bound in Hi. unfold len. lia.
Qed.

#[local] Instance LitEngine : RegexpEngine := {|
  Regexp := string;
  Compile := litCompile;
  MatchString := litMatchString;
  FindStringIndex := litFindStringIndex;
  MatchString_iff := lit_MatchString_iff;
  FindStringIndex_bounds := lit_FindStringIndex_bounds
|}.

(** ** Records and traces *)

Lemma setBuffer_same (s : SSHLib) : setBuffer (Buffer s) s = s.
Proof. now destruct s. Qed.

Lemma setBuffer_twice (b b' : string) (s : SSHLib) :
  setBuffer b (setBuffer b' s) = setBuffer b s.
Proof. reflexivity. Qed.

Lemma nth_error_skipn {A} (l : list A) (k : nat) (x : A) :
  nth_error l k = Some x -> skipn k l = x :: skipn (S k) l.
Proof.
  revert l; induction k as [|k IH]; intros [|y l]; simpl; try discriminate.
  - now intros [= ->].
  - intros Hx. now rewrite (IH l Hx).
Qed.

Lemma bufferAt_0 (s : SSHLib) (e : Env) : bufferAt s e 0 = Buffer s.
Proof. unfold bufferAt. simpl. apply append_nil_r. Qed.

(** ** The loops are instances of [poll] *)

Ltac run :=
  unfold bind, ret, gets, modify, getsEnv, orPanic, panic; cbn beta iota.

Lemma ReadUntil_loop_poll (str : string) (startTime timeoutMs : Z) :
  forall turns s e,
    ReadUntil_loop turns str startTime timeoutMs s e =
    poll turns (literalTest str) startTime timeoutMs s e.
Proof.
  induction turns as [|turns IH]; intros s e; [reflexivity|].
  cbn [ReadUntil_loop poll]. unfold literalTest. run.
  destruct (getTimestamp s e) as [now s1 e1| |]; try reflexivity.
  destruct (inTime startTime timeoutMs now); [|reflexivity].
  destruct (strings.Contains (Buffer s1) str).
  - destruct (slice (Buffer s1) 0 _); [|reflexivity].
    destruct (slice (Buffer s1) _ _); reflexivity.
  - destruct (GetData s1 e1) as [[] s2 e2| |]; try reflexivity. apply IH.
Qed.

Section LoopsWithRegexp.

Context {engine : RegexpEngine}.

Lemma ReadUntilRegex_loop_poll (cmpRe : Regexp) (startTime timeoutMs : Z) :
  forall turns s e,
    ReadUntilRegex_loop turns cmpRe startTime timeoutMs s e =
    poll turns (regexTest cmpRe) startTime timeoutMs s e.
Proof.
  induction turns as [|turns IH]; intros s e; [reflexivity|].
  cbn [ReadUntilRegex_loop poll]. unfold regexTest. run.
  destruct (getTimestamp s e) as [now s1 e1| |]; try reflexivity.
  destruct (inTime startTime timeoutMs now); [|reflexivity].
  destruct (MatchString cmpRe (Buffer s1)).
  - destruct (cutAtMatchEnd cmpRe (Buffer s1) s1 e1); reflexivity.
  - destruct (GetData s1 e1) as [[] s2 e2| |]; try reflexivity. apply IH.
Qed.

(** A scan that ends with [foundMatch] false has matched nothing: it
    changed neither [returnData] nor the state. *)
Lemma scanList_false (cmpReList : list (option Regexp)) :
  forall returnData foundMatch s e returnData' s' e',
    scanList cmpReList returnData foundMatch s e = Ok (returnData', false) s' e' ->
    foundMatch = false /\ returnData' = returnData /\ s' = s /\ e' = e.
Proof.
  induction cmpReList as [|[re|] rest IH]; intros rd fm s e rd' s' e';
    cbn [scanList]; run.
  - intros [= -> -> -> ->]. auto.
  - destruct (MatchString re (Buffer s)).
    + destruct (cutAtMatchEnd re (Buffer s) s e) as [rd1 s1 e1| |];
        try discriminate.
      intros Hs. apply IH in Hs. destruct Hs as [Hs _]. discriminate.
    + apply IH.
  - discriminate.
Qed.

Lemma ReadUntilRegexList_loop_poll (cmpReList : list (option Regexp))
    (startTime timeoutMs : Z) :
  forall turns s e,
    ReadUntilRegexList_loop turns cmpReList startTime timeoutMs "" s e =
    poll turns (listTest cmpReList) startTime timeoutMs s e.
Proof.
  induction turns as [|turns IH]; intros s e; [reflexivity|].
  cbn [ReadUntilRegexList_loop poll]. unfold listTest. run.
  destruct (getTimestamp s e) as [now s1 e1| |]; try reflexivity.
  destruct (inTime startTime timeoutMs now); [|reflexivity].
  destruct (scanList cmpReList "" false s1 e1) as [[rd [|]] s2 e2| |] eqn:Hs;
    try reflexivity.
  apply scanList_false in Hs. destruct Hs as (_ & -> & -> & ->).
  destruct (GetData s1 e1) as [[] s2 e2| |]; try reflexivity. apply IH.
Qed.

End LoopsWithRegexp.

(** ** Running [poll] *)

Lemma bufferAt_step (s : SSHLib) (e : Env) (b : string) (c : list Z)
    (x : option string) (ch : list (option string)) (k : nat) :
  Chan e = x :: ch ->
  b = Buffer s ++ received [x] ->
  bufferAt (setBuffer b s) (setChan ch (setClock c e)) k = bufferAt s e (S k).
Proof.
  intros Hch ->. unfold bufferAt. rewrite Hch. cbn [firstn setBuffer Buffer
    setChan Chan]. rewrite append_assoc. f_equal.
  destruct x as [d|]; cbn [received]; [|reflexivity].
  now rewrite append_nil_r.
Qed.

Lemma bufferAt_closed (s : SSHLib) (e : Env) (k : nat) :
  Chan e = [] -> bufferAt s e k = Buffer s.
Proof.
  intros Hch. unfold bufferAt. rewrite Hch, firstn_nil. apply append_nil_r.
Qed.

(** [k] turns whose guards pass and whose tests find nothing amount to
    [k] readings of the clock and [k] receive attempts. *)
Lemma poll_skip (test : M SSHLib (option string)) (startTime timeoutMs : Z) :
  forall k turns s e,
    (forall j, (j < k)%nat ->
       option_map (inTime startTime timeoutMs) (nth_error (Clock e) j)
       = Some true) ->
    (forall j, (j < k)%nat -> quietAt test s (bufferAt s e j)) ->
    poll turns test startTime timeoutMs s e =
    poll (turns - k) test startTime timeoutMs
         (setBuffer (bufferAt s e k) s)
         (mkEnv (skipn k (Clock e)) (skipn k (Chan e)) (Dial e)).
Proof.
  induction k as [|k IH]; intros turns s e Hg Hq.
  - rewrite Nat.sub_0_r, bufferAt_0, setBuffer_same. now destruct e.
  - destruct turns as [|turns]; [reflexivity|].
    assert (Hg0 := Hg O ltac:(lia)). assert (Hq0 := Hq O ltac:(lia)).
    unfold quietAt in Hq0. rewrite bufferAt_0, setBuffer_same in Hq0.
    cbn [poll Nat.sub]. run. unfold getTimestamp.
    destruct (Clock e) as [|now c] eqn:Hc; [discriminate|].
    cbn in Hg0. injection Hg0 as Hg0. rewrite Hg0, Hq0.
    unfold GetData. cbn [setClock Chan].
    destruct (Chan e) as [|x ch] eqn:Hch.
    + rewrite IH.
      * cbn [setClock Clock Chan Dial]. rewrite Hch, !skipn_nil.
        now rewrite !bufferAt_closed by (cbn; assumption).
      * intros j Hj. cbn [setClock Clock].
        apply (Hg (S j)). lia.
      * intros j Hj. rewrite bufferAt_closed by (cbn; assumption).
        rewrite <- (bufferAt_closed s e (S j) Hch). apply Hq. lia.
    + assert (Hstep : forall b, b = Buffer s ++ received [x] -> forall j,
                 bufferAt (setBuffer b s) (setChan ch (setClock c e)) j
                 = bufferAt s e (S j))
        by (intros b Hb j; now apply bufferAt_step with (x := x)).
      assert (Hg' : forall j, (j < k)%nat ->
                 option_map (inTime startTime timeoutMs)
                   (nth_error (Clock (setChan ch (setClock c e))) j)
                 = Some true)
        by (intros j Hj; apply (Hg (S j)); lia).
      destruct x as [data|].
      * rewrite IH; [| exact Hg' |].
        -- rewrite setBuffer_twice, Hstep
             by (cbn [received]; now rewrite append_nil_r).
           reflexivity.
        -- intros j Hj. rewrite Hstep
             by (cbn [received]; now rewrite append_nil_r).
           intros e'. rewrite setBuffer_twice. apply Hq. lia.
      * rewrite <- (setBuffer_same s) at 1.
        rewrite IH; [| exact Hg' |].
        -- rewrite setBuffer_twice, Hstep
             by (cbn [received]; now rewrite append_nil_r).
           reflexivity.
        -- intros j Hj. rewrite Hstep
             by (cbn [received]; now rewrite append_nil_r).
           intros e'. rewrite setBuffer_twice. apply Hq. lia.
Qed.

Lemma poll_expires (test : M SSHLib (option string)) (startTime timeoutMs : Z)
    (k turns : nat) (s : SSHLib) (e : Env) (now : Z) :
  (forall j, (j < k)%nat ->
     option_map (inTime startTime timeoutMs) (nth_error (Clock e) j)
     = Some true) ->
  (forall j, (j < k)%nat -> quietAt test s (bufferAt s e j)) ->
  nth_error (Clock e) k = Some now ->
  inTime startTime timeoutMs now = false ->
  (List.length (Clock e) <= turns)%nat ->
  poll turns test startTime timeoutMs s e =
  Ok ("", false) (setBuffer (bufferAt s e k) s)
     (mkEnv (skipn (S k) (Clock e)) (skipn k (Chan e)) (Dial e)).
Proof.
  intros Hg Hq Hnow Hexp Hturns.
  rewrite (poll_skip test startTime timeoutMs k) by assumption.
  assert (Hk : (k < List.length (Clock e))%nat)
    by (apply nth_error_Some; congruence).
  destruct (turns - k)%nat as [|t] eqn:Ht; [lia|].
  cbn [poll]. run. unfold getTimestamp. cbn [Clock].
  rewrite (nth_error_skipn _ _ _ Hnow), Hexp. reflexivity.
Qed.

Lemma poll_matches (test : M SSHLib (option string)) (startTime timeoutMs : Z)
    (k turns : nat) (s s' : SSHLib) (e : Env) (returnData : string) :
  (forall j, (j < S k)%nat ->
     option_map (inTime startTime timeoutMs) (nth_error (Clock e) j)
     = Some true) ->
  (forall j, (j < k)%nat -> quietAt test s (bufferAt s e j)) ->
  (forall e', test (setBuffer (bufferAt s e k) s) e' = Ok (Some returnData) s' e') ->
  (List.length (Clock e) <= turns)%nat ->
  poll turns test startTime timeoutMs s e =
  Ok (returnData, true) s'
     (mkEnv (skipn (S k) (Clock e)) (skipn k (Chan e)) (Dial e)).
Proof.
  intros Hg Hq Hfound Hturns.
  rewrite (poll_skip test startTime timeoutMs k)
    by (try assumption; intros j Hj; apply Hg; lia).
  assert (Hgk := Hg k ltac:(lia)).
  destruct (nth_error (Clock e) k) as [now|] eqn:Hnow; [|discriminate].
  cbn in Hgk. injection Hgk as Hgk.
  assert (Hk : (k < List.length (Clock e))%nat)
    by (apply nth_error_Some; congruence).
  destruct (turns - k)%nat as [|t] eqn:Ht; [lia|].
  cbn [poll]. run. unfold getTimestamp. cbn [Clock].
  rewrite (nth_error_skipn _ _ _ Hnow), Hgk, Hfound. reflexivity.
Qed.

(** ** Guards and tests, from their boolean form *)

Lemma forallb_seq (f : nat -> bool) (k : nat) :
  forallb f (seq 0 k) = true -> forall j, (j < k)%nat -> f j = true.
Proof.
  intros Hf j Hj. rewrite forallb_forall in Hf. apply Hf, in_seq. lia.
Qed.

Lemma guardsPass_loop (timeout : Z) (e : Env) (k : nat) (startTime : Z)
    (readings : list Z) :
  Clock e = startTime :: readings ->
  guardsPass timeout e k = true ->
  forall j, (j < k)%nat ->
    option_map (inTime startTime (wrap64 (wrap64 timeout * 1000)))
               (nth_error (Clock (setClock readings e)) j) = Some true.
Proof.
  intros Hc Hg j Hj. apply forallb_seq with (j := j) in Hg; [|assumption].
  unfold guardAt in Hg. rewrite Hc in Hg. cbn [setClock Clock].
  destruct (option_map _ (nth_error readings j)) as [[|]|]; try discriminate.
  reflexivity.
Qed.

Lemma quietBefore_spec (quiet : string -> bool) (s : SSHLib) (e : Env)
    (k : nat) :
  quietBefore quiet s e k = true ->
  forall j, (j < k)%nat -> quiet (bufferAt s e j) = true.
Proof. intros Hq j Hj. now apply forallb_seq with (j := j) in Hq. Qed.

(** ** Running a reader *)

Lemma finish_no_match (s : SSHLib) (e : Env) :
  finish "" false s e = Ok (Buffer s, Some ErrNoMatch) (setBuffer "" s) e.
Proof. reflexivity. Qed.

Lemma finish_match (returnData : string) (s : SSHLib) (e : Env) :
  finish returnData true s e =
  if String.eqb returnData ""
  then Ok (Buffer s, None) (setBuffer "" s) e
  else Ok (returnData, None) s e.
Proof. unfold finish. run. now destruct (String.eqb returnData ""). Qed.

Lemma readWith_expires (test : M SSHLib (option string)) (timeout : Z)
    (s : SSHLib) (e : Env) (k : nat) :
  guardsPass timeout e k = true ->
  guardAt timeout e k = Some false ->
  (forall j, (j < k)%nat -> quietAt test s (bufferAt s e j)) ->
  readWith test timeout s e =
  Ok (bufferAt s e k, Some ErrNoMatch) (setBuffer "" s) (envAfter e k).
Proof.
  intros Hg Hexp Hq. unfold readWith. run. unfold getTimestamp, guardAt in *.
  destruct (Clock e) as [|startTime readings] eqn:Hc; [discriminate|].
  destruct (nth_error readings k) as [now|] eqn:Hnow; [|discriminate].
  cbn in Hexp. injection Hexp as Hexp.
  rewrite (poll_expires test _ _ k _ s (setClock readings e) now);
    try assumption; try reflexivity.
  - rewrite finish_no_match. unfold envAfter. rewrite Hc. reflexivity.
  - now apply guardsPass_loop.
Qed.

Lemma readWith_matches (test : M SSHLib (option string)) (timeout : Z)
    (s : SSHLib) (e : Env) (k : nat) (returnData rest : string) :
  guardsPass timeout e (S k) = true ->
  (forall j, (j < k)%nat -> quietAt test s (bufferAt s e j)) ->
  (forall e', test (setBuffer (bufferAt s e k) s) e'
              = Ok (Some returnData) (setBuffer rest s) e') ->
  readWith test timeout s e =
  if String.eqb returnData ""
  then Ok (rest, None) (setBuffer "" s) (envAfter e k)
  else Ok (returnData, None) (setBuffer rest s) (envAfter e k).
Proof.
  intros Hg Hq Hfound. unfold readWith. run. unfold getTimestamp.
  assert (Hg0 := forallb_seq _ _ Hg O ltac:(lia)). unfold guardAt in Hg0.
  destruct (Clock e) as [|startTime readings] eqn:Hc; [discriminate|].
  rewrite (poll_matches test _ _ k _ s (setBuffer rest s)
             (setClock readings e) returnData);
    try assumption; try reflexivity.
  - rewrite finish_match. unfold envAfter. rewrite Hc. reflexivity.
  - now apply guardsPass_loop.
Qed.

(** ** The three readers as [readWith] *)

Lemma ReadUntil_readWith (str : string) (timeout : Z) (s : SSHLib) (e : Env) :
  ReadUntil str timeout s e = readWith (literalTest str) timeout s e.
Proof.
  unfold ReadUntil, readWith. run.
  destruct (getTimestamp s e) as [startTime s1 e1| |]; try reflexivity.
  now rewrite ReadUntil_loop_poll.
Qed.

(** The literal test on a buffer without the target, and on one with it. *)
Lemma literalTest_quiet (str b : string) (s : SSHLib) :
  literalQuiet str b = true -> quietAt (literalTest str) s b.
Proof.
  unfold literalQuiet. intros Hq e. apply negb_true_iff in Hq.
  unfold literalTest. run. cbn [setBuffer Buffer]. now rewrite Hq.
Qed.

Lemma literalTest_found (str b : string) (i : nat) (s : SSHLib) (e : Env) :
  strings.indexNat b str = Some i ->
  literalTest str (setBuffer b s) e =
  Ok (Some (take (i + String.length str) b)) (setBuffer (drop i b) s) e.
Proof.
  intros Hi. assert (Hb := indexNat_bound _ _ _ Hi).
  unfold literalTest. run. cbn [setBuffer Buffer].
  unfold strings.Contains, strings.Index. rewrite Hi.
  replace (0 <=? Z.of_nat i) with true by (symmetry; apply Z.leb_le; lia).
  rewrite slice_to by (unfold len; lia).
  rewrite slice_from by (unfold len; lia).
  unfold len. rewrite <- Nat2Z.inj_add, !Nat2Z.id. reflexivity.
Qed.

Section Readers.

Context {engine : RegexpEngine}.

Lemma ReadUntilRegex_readWith (regexStr : string) (re : Regexp) (timeout : Z)
    (s : SSHLib) (e : Env) :
  Compile regexStr = Some re ->
  ReadUntilRegex regexStr timeout s e = readWith (regexTest re) timeout s e.
Proof.
  intros Hre. unfold ReadUntilRegex, readWith. run. rewrite Hre.
  destruct (getTimestamp s e) as [startTime s1 e1| |]; try reflexivity.
  now rewrite ReadUntilRegex_loop_poll.
Qed.

Lemma ReadUntilRegexList_readWith (regexList : list string) (timeout : Z)
    (s : SSHLib) (e : Env) :
  ReadUntilRegexList regexList timeout s e =
  readWith (listTest (map Compile regexList)) timeout s e.
Proof.
  unfold ReadUntilRegexList, readWith. run.
  destruct (getTimestamp s e) as [startTime s1 e1| |]; try reflexivity.
  now rewrite ReadUntilRegexList_loop_poll.
Qed.

(** Cutting at the end of the match found: by the engine's contract the
    look-up and both slices succeed. *)
Lemma cutAtMatchEnd_found (re : Regexp) (b : string) (lo hi : Z) (s : SSHLib)
    (e : Env) :
  FindStringIndex re b = Some (lo, hi) ->
  cutAtMatchEnd re b s e =
  Ok (take (Z.to_nat hi) b) (setBuffer (drop (Z.to_nat hi) b) s) e.
Proof.
  intros Hf. assert (Hb := FindStringIndex_bounds _ _ _ _ Hf).
  unfold cutAtMatchEnd. run. rewrite Hf. run.
  rewrite slice_to by lia. rewrite slice_from by lia. reflexivity.
Qed.

Lemma regexTest_quiet (re : Regexp) (b : string) (s : SSHLib) :
  regexQuiet re b = true -> quietAt (regexTest re) s b.
Proof.
  unfold regexQuiet. intros Hq e. apply negb_true_iff in Hq.
  unfold regexTest. run. cbn [setBuffer Buffer]. now rewrite Hq.
Qed.

Lemma regexTest_found (re : Regexp) (b : string) (lo hi : Z) (s : SSHLib)
    (e : Env) :
  FindStringIndex re b = Some (lo, hi) ->
  regexTest re (setBuffer b s) e =
  Ok (Some (take (Z.to_nat hi) b)) (setBuffer (drop (Z.to_nat hi) b) s) e.
Proof.
  intros Hf. unfold regexTest. run. cbn [setBuffer Buffer].
  replace (MatchString re b) with true
    by (symmetry; apply MatchString_iff; congruence).
  rewrite (cutAtMatchEnd_found re b lo hi) by assumption.
  now rewrite setBuffer_twice.
Qed.

Lemma scanList_quiet (regexList : list string) (s : SSHLib) (e : Env) :
  listQuiet regexList (Buffer s) = true ->
  scanList (map Compile regexList) "" false s e = Ok ("", false) s e.
Proof.
  induction regexList as [|p l IH]; cbn [listQuiet forallb map scanList];
    [reflexivity|].
  rewrite andb_true_iff. intros [Hp Hl].
  destruct (Compile p) as [re|]; [|discriminate].
  apply negb_true_iff in Hp. run. rewrite Hp. now apply IH.
Qed.

Lemma listTest_quiet (regexList : list string) (b : string) (s : SSHLib) :
  listQuiet regexList b = true ->
  quietAt (listTest (map Compile regexList)) s b.
Proof.
  intros Hq e. unfold listTest. run.
  now rewrite scanList_quiet by (cbn [setBuffer Buffer]; assumption).
Qed.

End Readers.

Lemma take_nonempty (b : string) (hi : Z) :
  0 < hi <= len b -> String.eqb (take (Z.to_nat hi) b) "" = false.
Proof.
  intros Hb. destruct (Z.to_nat hi) as [|n] eqn:Hn; [lia|].
  destruct b as [|c b]; [unfold len in Hb; simpl in Hb; lia | reflexivity].
Qed.

(** ** Deadline expiry *)

Section Claims.

Context {engine : RegexpEngine}.

Lemma ReadUntilRegex_expires (regexStr : string) (re : Regexp) (timeout : Z)
    (s : SSHLib) (e : Env) (k : nat) :
  Compile regexStr = Some re ->
  guardsPass timeout e k = true ->
  guardAt timeout e k = Some false ->
  quietBefore (regexQuiet re) s e k = true ->
  ReadUntilRegex regexStr timeout s e =
  Ok (bufferAt s e k, Some ErrNoMatch) (setBuffer "" s) (envAfter e k).
Proof.
  intros Hre Hg Hexp Hq. rewrite (ReadUntilRegex_readWith _ re) by assumption.
  apply readWith_expires; try assumption.
  intros j Hj. apply regexTest_quiet.
  now apply (quietBefore_spec _ _ _ _ Hq).
Qed.

(** C4.  When the deadline of a read-until call expires at the [k]-th
    reading of the guard, the [k] turns before it having found no match,
    [ReadUntil], [ReadUntilRegex] and [ReadUntilRegexList] each return the
    entire buffer as it is at expiry -- the buffer at entry followed by all
    that the [k] turns received -- together with [ErrNoMatch], and leave the
    buffer empty. *)
Theorem expired_deadline_returns_whole_buffer (timeout : Z) (s : SSHLib)
    (e : Env) (k : nat) :
  guardsPass timeout e k = true ->
  guardAt timeout e k = Some false ->
  let outcome :=
    Ok (bufferAt s e k, Some ErrNoMatch) (setBuffer "" s) (envAfter e k) in
  (forall str,
     quietBefore (literalQuiet str) s e k = true ->
     ReadUntil str timeout s e = outcome) /\
  (forall regexStr re,
     Compile regexStr = Some re ->
     quietBefore (regexQuiet re) s e k = true ->
     ReadUntilRegex regexStr timeout s e = outcome) /\
  (forall regexList,
     quietBefore (listQuiet regexList) s e k = true ->
     ReadUntilRegexList regexList timeout s e = outcome).
Proof.
  intros Hg Hexp outcome. repeat split.
  - intros str Hq. rewrite ReadUntil_readWith.
    apply readWith_expires; try assumption.
    intros j Hj. apply literalTest_quiet.
    now apply (quietBefore_spec _ _ _ _ Hq).
  - intros regexStr re Hre Hq. now apply (ReadUntilRegex_expires _ re).
  - intros regexList Hq. rewrite ReadUntilRegexList_readWith.
    apply readWith_expires; try assumption.
    intros j Hj. apply listTest_quiet.
    now apply (quietBefore_spec _ _ _ _ Hq).
Qed.

(** ** Matches *)

(** The literal reader on a match: the text returned ends with the target,
    the buffer kept begins with it. *)
Lemma ReadUntil_found (str : string) (timeout : Z) (s : SSHLib) (e : Env)
    (k i : nat) :
  guardsPass timeout e (S k) = true ->
  quietBefore (literalQuiet str) s e k = true ->
  strings.indexNat (bufferAt s e k) str = Some i ->
  (0 < i + String.length str)%nat ->
  ReadUntil str timeout s e =
  Ok (take (i + String.length str) (bufferAt s e k), None)
     (setBuffer (drop i (bufferAt s e k)) s) (envAfter e k).
Proof.
  intros Hg Hq Hi Hpos. rewrite ReadUntil_readWith.
  rewrite (readWith_matches _ _ _ _ k
             (take (i + String.length str) (bufferAt s e k))
             (drop i (bufferAt s e k))); try assumption.
  - assert (Hb := indexNat_bound _ _ _ Hi).
    rewrite <- (Nat2Z.id (i + String.length str)).
    rewrite take_nonempty by (unfold len; lia). reflexivity.
  - intros j Hj. apply literalTest_quiet.
    now apply (quietBefore_spec _ _ _ _ Hq).
  - intros e'. now apply literalTest_found.
Qed.

(** C5, amended.  When the compiled pattern matches the buffer and the
    match ends at an offset greater than zero, [ReadUntilRegex] returns
    exactly [Buffer[0:matchEnd]], leaves exactly [Buffer[matchEnd:]] and
    returns success; the text returned followed by the buffer left is the
    buffer the pattern was matched against. *)
Theorem ReadUntilRegex_cuts_at_match_end (regexStr : string) (re : Regexp)
    (timeout : Z) (s : SSHLib) (e : Env) (k : nat) (lo hi : Z) :
  Compile regexStr = Some re ->
  guardsPass timeout e (S k) = true ->
  quietBefore (regexQuiet re) s e k = true ->
  FindStringIndex re (bufferAt s e k) = Some (lo, hi) ->
  0 < hi ->
  exists matchedPrefix remainder,
    slice (bufferAt s e k) 0 hi = Some matchedPrefix /\
    slice (bufferAt s e k) hi (len (bufferAt s e k)) = Some remainder /\
    ReadUntilRegex regexStr timeout s e =
      Ok (matchedPrefix, None) (setBuffer remainder s) (envAfter e k) /\
    matchedPrefix ++ remainder = bufferAt s e k.
Proof.
  intros Hre Hg Hq Hf Hpos.
  assert (Hb := FindStringIndex_bounds _ _ _ _ Hf).
  exists (take (Z.to_nat hi) (bufferAt s e k)),
         (drop (Z.to_nat hi) (bufferAt s e k)).
  split; [apply slice_to; lia|]. split; [apply slice_from; lia|].
  split; [|apply take_drop].
  rewrite (ReadUntilRegex_readWith _ re) by assumption.
  rewrite (readWith_matches _ _ _ _ k
             (take (Z.to_nat hi) (bufferAt s e k))
             (drop (Z.to_nat hi) (bufferAt s e k))); try assumption.
  - rewrite take_nonempty by lia. reflexivity.
  - intros j Hj. apply regexTest_quiet.
    now apply (quietBefore_spec _ _ _ _ Hq).
  - intros e'. now apply (regexTest_found re _ lo hi).
Qed.

(** C10.  When the matched prefix computed by the loop is the empty string
    -- [ReadUntil] called with the empty literal, or the first match of the
    pattern of [ReadUntilRegex] ending at offset zero -- the call returns
    the entire buffer, clears it and reports success. *)
Theorem empty_prefix_returns_whole_buffer (timeout : Z) (s : SSHLib) (e : Env) :
  (guardsPass timeout e 1 = true ->
   ReadUntil "" timeout s e =
   Ok (Buffer s, None) (setBuffer "" s) (envAfter e 0)) /\
  (forall regexStr re k lo,
     Compile regexStr = Some re ->
     guardsPass timeout e (S k) = true ->
     quietBefore (regexQuiet re) s e k = true ->
     FindStringIndex re (bufferAt s e k) = Some (lo, 0) ->
     ReadUntilRegex regexStr timeout s e =
     Ok (bufferAt s e k, None) (setBuffer "" s) (envAfter e k)).
Proof.
  split.
  - intros Hg. rewrite ReadUntil_readWith.
    rewrite (readWith_matches _ _ _ _ O "" (Buffer s)); try assumption.
    + reflexivity.
    + intros j Hj. lia.
    + intros e'.
      rewrite (literalTest_found "" (bufferAt s e 0) O)
        by (now destruct (bufferAt s e 0)).
      cbn [take drop Nat.add String.length]. now rewrite bufferAt_0.
  - intros regexStr re k lo Hre Hg Hq Hf.
    rewrite (ReadUntilRegex_readWith _ re) by assumption.
    rewrite (readWith_matches _ _ _ _ k "" (bufferAt s e k)); try assumption.
    + reflexivity.
    + intros j Hj. apply regexTest_quiet.
      now apply (quietBefore_spec _ _ _ _ Hq).
    + intros e'. now rewrite (regexTest_found re _ lo 0) by assumption.
Qed.

(** C6.  When the pattern does not compile, [ReadUntilRegex] returns the
    compile error at once: only the start reading of the clock has been
    taken, no guard was evaluated and no receive attempted, and the session,
    its buffer included, is as it was. *)
Theorem ReadUntilRegex_invalid_pattern_fails_fast (regexStr : string)
    (timeout : Z) (s : SSHLib) (e : Env) (startTime : Z) (readings : list Z) :
  Compile regexStr = None ->
  Clock e = startTime :: readings ->
  ReadUntilRegex regexStr timeout s e =
  Ok ("", Some (ErrSyntax regexStr)) s (setClock readings e).
Proof.
  intros Hre Hc. unfold ReadUntilRegex. run. unfold getTimestamp.
  now rewrite Hc, Hre.
Qed.

(** ** Invalid patterns in a list *)

(** A list read with a pattern that does not compile panics in its first
    turn: the nil entry is reached whatever the entries before it do. *)
Lemma scanList_nil_entry_panics (cmpReList : list (option Regexp)) :
  In None cmpReList ->
  forall returnData foundMatch s e,
    scanList cmpReList returnData foundMatch s e = Panic nilDeref.
Proof.
  induction cmpReList as [|[re|] l IH]; intros Hin rd fm s e;
    cbn [scanList]; try reflexivity.
  - destruct Hin.
  - destruct Hin as [Hin|Hin]; [discriminate|]. run.
    destruct (MatchString re (Buffer s)) eqn:Hm; [|now apply IH].
    apply MatchString_iff in Hm.
    destruct (FindStringIndex re (Buffer s)) as [[lo hi]|] eqn:Hf;
      [|congruence].
    rewrite (cutAtMatchEnd_found re _ lo hi) by assumption. now apply IH.
Qed.

Lemma ReadUntilRegexList_invalid_pattern_panics (regexList : list string)
    (p : string) (timeout : Z) (s : SSHLib) (e : Env) :
  In p regexList ->
  Compile p = None ->
  guardsPass timeout e 1 = true ->
  ReadUntilRegexList regexList timeout s e = Panic nilDeref.
Proof.
  intros Hin Hp Hg. unfold ReadUntilRegexList. run. unfold getTimestamp.
  assert (Hg0 := forallb_seq _ _ Hg O ltac:(lia)). unfold guardAt in Hg0.
  destruct (Clock e) as [|startTime [|now readings]]; try discriminate.
  cbn in Hg0. cbn [setClock Clock List.length ReadUntilRegexList_loop]. run.
  unfold getTimestamp. cbn [setClock Clock].
  destruct (inTime startTime _ now); [|discriminate].
  rewrite scanList_nil_entry_panics; [reflexivity|].
  rewrite <- Hp. now apply in_map.
Qed.

End Claims.

(** ** Lines *)

Lemma genSplit_not_nil (fuel : nat) (s sep : string) :
  strings.genSplit fuel s sep <> [].
Proof.
  destruct fuel as [|fuel]; cbn [strings.genSplit]; [discriminate|].
  destruct (strings.indexNat s sep); discriminate.
Qed.

(** Joining what [genSplit] produced gives the text back, however many
    cuts were made. *)
Lemma Join_genSplit (sep : string) :
  forall fuel s, strings.Join (strings.genSplit fuel s sep) sep = s.
Proof.
  induction fuel as [|fuel IH]; intros s; cbn [strings.genSplit];
    [reflexivity|].
  destruct (strings.indexNat s sep) as [m|] eqn:Hm; [|reflexivity].
  cbn [strings.Join].
  destruct (strings.genSplit fuel (drop (m + String.length sep) s) sep)
    as [|x l] eqn:Hg; [now apply genSplit_not_nil in Hg|].
  rewrite <- Hg, IH. symmetry. now apply indexNat_split.
Qed.

Lemma indexNat_nl (s : string) :
  match strings.indexNat s nl with
  | Some m => take m s = firstLine s /\ drop (m + 1) s = afterFirstLine s
  | None => s = firstLine s /\ afterFirstLine s = ""
  end.
Proof.
  induction s as [|c s IH]; [now split|].
  cbn [strings.indexNat strings.HasPrefix nl firstLine afterFirstLine].
  destruct (Ascii.eqb c (ascii_of_nat 10)); cbn [andb].
  - now split.
  - destruct (strings.indexNat s nl) as [m|]; cbn [option_map];
      destruct IH as [IH1 IH2]; cbn [take drop Nat.add]; split;
      congruence.
Qed.

(** [Split] at line feeds yields the first line, and joining the other
    pieces yields what follows the first line feed. *)
Lemma Split_lines (output : string) :
  exists rest,
    strings.Split output nl = firstLine output :: rest /\
    strings.Join rest nl = afterFirstLine output.
Proof.
  unfold strings.Split. cbn [nl].
  fold nl. assert (Hnl := indexNat_nl output).
  destruct output as [|c s].
  - exists []. now split.
  - cbn [String.length strings.genSplit].
    destruct (strings.indexNat (String c s) nl) as [m|].
    + destruct Hnl as [H1 H2]. eexists. split; [now rewrite H1|].
      rewrite Join_genSplit. cbn [String.length nl]. exact H2.
    + destruct Hnl as [H1 H2]. exists []. split; [congruence|].
      now rewrite H2.
Qed.

(** ** The agent *)

Section Agent.

Context {engine : RegexpEngine}.

(** C8.  [SendCommandStripCommand] passes on an error of [SendCommand];
    otherwise, when the first line of the output of [SendCommand] contains
    the command, it returns what follows that line's line feed, and when it
    does not, it returns the output unchanged. *)
Theorem SendCommandStripCommand_strips_first_line (command : string)
    (a : SSHAgent) (e : Env) :
  SendCommandStripCommand command a e =
  match SendCommand command a e with
  | Ok (output, None) a' e' =>
      Ok (if strings.Contains (firstLine output) command
          then afterFirstLine output
          else output, None) a' e'
  | Ok (_, Some err) a' e' => Ok ("", Some err) a' e'
  | Panic msg => Panic msg
  | Stuck => Stuck
  end.
Proof.
  unfold SendCommandStripCommand. run.
  destruct (SendCommand command a e) as [[output [err|]] a' e'| |];
    try reflexivity.
  destruct (Split_lines output) as (rest & -> & <-).
  now destruct (strings.Contains (firstLine output) command).
Qed.

(** [Connect] leaves the agent's prompt pattern and timeout alone. *)
Lemma Connect_keeps_settings (a a0 : SSHAgent) (e e0 : Env)
    (r : option error) :
  Connect a e = Ok r a0 e0 ->
  PromptRegex a0 = PromptRegex a /\ Timeout a0 = Timeout a.
Proof.
  unfold Connect. run. destruct (Connected a); cbn [negb].
  - now intros [= _ <- _].
  - unfold onConn. destruct (Open (Conn a) e) as [[err|] c e1| |];
      try discriminate; now intros [= _ <- _].
Qed.

(** After a successful [Connect], the command and a line feed are written. *)
Lemma SendCommandNoWait_writes (command : string) (a a0 : SSHAgent)
    (e e0 : Env) (written : list string) :
  Connect a e = Ok None a0 e0 ->
  Stdin (Conn a0) = Some written ->
  SendCommandNoWait command a e =
  Ok None
     (setConn (setStdin (Some (written ++ [(command ++ nl)%string])%list) (Conn a0)) a0)
     e0.
Proof.
  intros Hc Hw. unfold SendCommandNoWait. run. rewrite Hc.
  unfold onConn, Write. run. now rewrite Hw.
Qed.

(** C9.  Once the agent is connected, or has reconnected, and the command
    is written, [SendCommand] returns the text of [ReadUntilRegex] with a
    nil error whatever error the read returned.  In particular, when the
    read's deadline expires without a match, so that the read returns the
    whole buffer with [ErrNoMatch], [SendCommand] returns that text and a
    nil error. *)
Theorem SendCommand_discards_read_error (command : string) (a a0 : SSHAgent)
    (e e0 : Env) (written : list string) :
  Connect a e = Ok None a0 e0 ->
  Stdin (Conn a0) = Some written ->
  let c := setStdin (Some (written ++ [(command ++ nl)%string])%list)
                    (Conn a0) in
  (forall output err c' e',
     ReadUntilRegex (PromptRegex a) (Timeout a) c e0 = Ok (output, err) c' e' ->
     SendCommand command a e = Ok (output, None) (setConn c' a0) e') /\
  (forall re k,
     Compile (PromptRegex a) = Some re ->
     guardsPass (Timeout a) e0 k = true ->
     guardAt (Timeout a) e0 k = Some false ->
     quietBefore (regexQuiet re) c e0 k = true ->
     ReadUntilRegex (PromptRegex a) (Timeout a) c e0 =
       Ok (bufferAt c e0 k, Some ErrNoMatch) (setBuffer "" c) (envAfter e0 k) /\
     SendCommand command a e =
       Ok (bufferAt c e0 k, None) (setConn (setBuffer "" c) a0) (envAfter e0 k)).
Proof.
  intros Hc Hw c.
  destruct (Connect_keeps_settings _ _ _ _ _ Hc) as [Hp Ht].
  assert (Hany : forall output err c' e',
             ReadUntilRegex (PromptRegex a) (Timeout a) c e0
             = Ok (output, err) c' e' ->
             SendCommand command a e = Ok (output, None) (setConn c' a0) e').
  { intros output err c' e' Hr. unfold SendCommand. run.
    rewrite (SendCommandNoWait_writes command a a0 e e0 written) by assumption.
    unfold onConn. cbn [setConn PromptRegex Timeout Conn]. fold c.
    now rewrite Hp, Ht, Hr. }
  split; [exact Hany|].
  intros re k Hre Hg Hexp Hq.
  assert (Hr := ReadUntilRegex_expires _ re _ c e0 k Hre Hg Hexp Hq).
  split; [exact Hr | exact (Hany _ _ _ _ Hr)].
Qed.

(** Scanning a list that ends with one more pattern is scanning the list
    and then testing that pattern. *)
Lemma scanList_app (l1 l2 : list (option Regexp)) :
  forall returnData foundMatch s e,
    scanList (l1 ++ l2) returnData foundMatch s e =
    bind (scanList l1 returnData foundMatch)
         (fun r => scanList l2 (fst r) (snd r)) s e.
Proof.
  induction l1 as [|[re|] l1 IH]; intros rd fm s e; cbn [app scanList];
    try reflexivity.
  run. destruct (MatchString re (Buffer s)).
  - destruct (cutAtMatchEnd re (Buffer s) s e) as [rd1 s1 e1| |];
      try reflexivity.
    rewrite IH. reflexivity.
  - rewrite IH. reflexivity.
Qed.

(** C7.  Once the agent is connected and the session can be written to,
    [SendCommandWaitForList] writes the command and a line feed and then is
    [ReadUntilRegexList] on the caller's patterns, in their order, followed
    by the agent's prompt pattern; in each turn of that read the caller's
    patterns are all scanned before the prompt pattern is. *)
Theorem SendCommandWaitForList_reads_patterns_then_prompt (command : string)
    (regexList : list string) (a a0 : SSHAgent) (e e0 : Env)
    (written : list string) :
  Connect a e = Ok None a0 e0 ->
  Stdin (Conn a0) = Some written ->
  SendCommandWaitForList command regexList a e =
    onConn (ReadUntilRegexList (regexList ++ [PromptRegex a]) (Timeout a))
      (setConn (setStdin (Some (written ++ [(command ++ nl)%string])%list) (Conn a0)) a0)
      e0 /\
  forall returnData foundMatch s' e',
    scanList (map Compile (regexList ++ [PromptRegex a])) returnData foundMatch
             s' e' =
    bind (scanList (map Compile regexList) returnData foundMatch)
         (fun r => scanList [Compile (PromptRegex a)] (fst r) (snd r)) s' e'.
Proof.
  intros Hc Hw. destruct (Connect_keeps_settings _ _ _ _ _ Hc) as [Hp Ht].
  split.
  - unfold SendCommandWaitForList. run.
    rewrite (SendCommandNoWait_writes command a a0 e e0 written) by assumption.
    cbn [setConn PromptRegex Timeout]. rewrite Hp, Ht.
    destruct (onConn _ _ e0) as [[output [err|]] a' e'| |]; reflexivity.
  - intros rd fm s' e'. rewrite map_app. apply scanList_app.
Qed.

End Agent.

(** ** The readers on concrete sessions, with the literal engine *)

(** C1.  On the buffer ["ls$ next"] and the target ["$ "], found at index 2,
    [ReadUntil] returns ["ls$ "] and leaves ["$ next"]: the target is both
    returned and kept, so the text returned followed by the buffer left is
    not the buffer before the call. *)
Theorem ReadUntil_keeps_target_in_buffer :
  let s := sessionWith "ls$ next" in
  let e := mkEnv [0; 1] [] [] in
  strings.Index (Buffer s) "$ " = 2 /\
  ReadUntil "$ " 1 s e =
    Ok ("ls$ ", None) (setBuffer "$ next" s) (envAfter e 0) /\
  "ls$ " ++ "$ next" <> Buffer s.
Proof.
  cbv zeta. split; [reflexivity|]. split; [reflexivity|]. discriminate.
Qed.

(** C2.  On the buffer ["xayb"], the patterns ["a"] and ["b"] both match;
    the match of ["a"] ends at offset 2, so the prefix it selects is
    ["xa"].  [ReadUntilRegexList] with the list [["a"; "b"]] returns
    ["yb"], the cut made by ["b"] in what ["a"] left, and ["xa"] is neither
    returned nor kept. *)
Theorem ReadUntilRegexList_later_pattern_overrides :
  let s := sessionWith "xayb" in
  let e := mkEnv [0; 1] [] [] in
  Compile "a" = Some "a" /\ Compile "b" = Some "b" /\
  @MatchString LitEngine "a" (Buffer s) = true /\
  @MatchString LitEngine "b" (Buffer s) = true /\
  @FindStringIndex LitEngine "a" (Buffer s) = Some (1, 2) /\
  slice (Buffer s) 0 2 = Some "xa" /\
  ReadUntilRegexList ["a"; "b"] 1 s e =
    Ok ("yb", None) (setBuffer "" s) (envAfter e 0).
Proof. cbv zeta. repeat split; reflexivity. Qed.

(** C3.  The pattern ["("] does not compile.  [ReadUntilRegexList] with
    the list [["("; "b"]] panics on a nil pointer in its first turn, where
    the same call with the list [["b"]] returns the buffer up to the end of
    the match of ["b"]. *)
Theorem ReadUntilRegexList_panics_on_invalid_pattern :
  let s := sessionWith "xayb" in
  let e := mkEnv [0; 1] [] [] in
  Compile "(" = None /\
  ReadUntilRegexList ["("; "b"] 1 s e = Panic nilDeref /\
  ReadUntilRegexList ["b"] 1 s e =
    Ok ("xayb", None) (setBuffer "" s) (envAfter e 0).
Proof. cbv zeta. repeat split; reflexivity. Qed.

(** The empty pattern matches the buffer ["abc"] with end offset 0, the
    guard passes, [Buffer[0:0]] is empty and [Buffer[0:]] is ["abc"]; yet
    [ReadUntilRegex] does not return the empty text and keep ["abc"]. *)
Lemma ReadUntilRegex_empty_match_not_cut_at_zero :
  let s := sessionWith "abc" in
  let e := mkEnv [0; 1] [] [] in
  Compile "" = Some "" /\
  guardsPass 1 e 1 = true /\
  quietBefore (@regexQuiet LitEngine "") s e 0 = true /\
  @FindStringIndex LitEngine "" (bufferAt s e 0) = Some (0, 0) /\
  slice (bufferAt s e 0) 0 0 = Some "" /\
  slice (bufferAt s e 0) 0 (len (bufferAt s e 0)) = Some "abc" /\
  ReadUntilRegex "" 1 s e <>
    Ok ("", None) (setBuffer "abc" s) (envAfter e 0).
Proof.
  cbv zeta. repeat split; try reflexivity.
  intros Hrun. vm_compute in Hrun. discriminate.
Qed.

Lemma expired_deadline_witness :
  let s := sessionWith "abc" in
  let e := mkEnv [0; 250; 500; 1000] [Some "de"; None] [] in
  let outcome :=
    Ok ("abcde", Some ErrNoMatch) (setBuffer "" s) (envAfter e 2) in
  ReadUntil "$ " 1 s e = outcome /\
  ReadUntilRegex "> " 1 s e = outcome /\
  ReadUntilRegexList ["# "; "> "] 1 s e = outcome.
Proof.
  cbv zeta.
  pose proof (expired_deadline_returns_whole_buffer 1 (sessionWith "abc")
                (mkEnv [0; 250; 500; 1000] [Some "de"; None] []) 2
                eq_refl eq_refl) as H.
  split; [exact (proj1 H "$ " eq_refl)|].
  split; [exact (proj1 (proj2 H) "> " "> " eq_refl eq_refl)|].
  exact (proj2 (proj2 H) ["# "; "> "] eq_refl).
Defined.

Lemma ReadUntilRegex_cuts_at_match_end_witness :
  let s := sessionWith "ls" in
  let e := mkEnv [0; 10; 20; 30] [Some "out"; Some "> rest"] [] in
  exists matchedPrefix remainder,
    slice "lsout> rest" 0 7 = Some matchedPrefix /\
    slice "lsout> rest" 7 (len "lsout> rest") = Some remainder /\
    ReadUntilRegex "> " 1 s e =
      Ok (matchedPrefix, None) (setBuffer remainder s) (envAfter e 2) /\
    matchedPrefix ++ remainder = "lsout> rest".
Proof.
  exact (ReadUntilRegex_cuts_at_match_end "> " "> " 1 (sessionWith "ls")
           (mkEnv [0; 10; 20; 30] [Some "out"; Some "> rest"] []) 2 5 7
           eq_refl eq_refl eq_refl eq_refl eq_refl).
Defined.

Lemma empty_prefix_witness :
  let s := sessionWith "abc" in
  let e := mkEnv [0; 1] [] [] in
  ReadUntil "" 1 s e = Ok ("abc", None) (setBuffer "" s) (envAfter e 0) /\
  ReadUntilRegex "" 1 s e = Ok ("abc", None) (setBuffer "" s) (envAfter e 0).
Proof.
  cbv zeta.
  pose proof (empty_prefix_returns_whole_buffer 1 (sessionWith "abc")
                (mkEnv [0; 1] [] [])) as H.
  split; [exact (proj1 H eq_refl)|].
  exact (proj2 H "" "" O 0 eq_refl eq_refl eq_refl eq_refl).
Defined.

Lemma ReadUntilRegex_invalid_pattern_witness :
  ReadUntilRegex "(" 30 (sessionWith "abc") (mkEnv [0] [Some "x"] []) =
  Ok ("", Some (ErrSyntax "(")) (sessionWith "abc") (mkEnv [] [Some "x"] []).
Proof.
  exact (ReadUntilRegex_invalid_pattern_fails_fast "(" 30 (sessionWith "abc")
           (mkEnv [0] [Some "x"] []) 0 [] eq_refl eq_refl).
Defined.

Lemma SendCommand_discards_read_error_witness :
  let a := mkSSHAgent "> " 1 (sessionWith "") true in
  let e := mkEnv [0; 500; 1000] [Some "partial"] [] in
  let c := setStdin (Some [("ls" ++ nl)%string]) (sessionWith "") in
  ReadUntilRegex "> " 1 c e =
    Ok ("partial", Some ErrNoMatch) (setBuffer "" c) (mkEnv [] [] []) /\
  SendCommand "ls" a e =
    Ok ("partial", None) (setConn (setBuffer "" c) a) (mkEnv [] [] []).
Proof.
  exact (proj2 (SendCommand_discards_read_error "ls"
                  (mkSSHAgent "> " 1 (sessionWith "") true) _
                  (mkEnv [0; 500; 1000] [Some "partial"] []) _ []
                  eq_refl eq_refl)
               "> " 1%nat eq_refl eq_refl eq_refl eq_refl).
Defined.

Lemma SendCommandWaitForList_witness :
  let a := mkSSHAgent "> " 1 (sessionWith "") true in
  let e := mkEnv [0; 500; 600] [Some "Password: "] [] in
  let c := setStdin (Some [("su" ++ nl)%string]) (sessionWith "") in
  SendCommandWaitForList "su" ["Password: "] a e =
    onConn (ReadUntilRegexList ["Password: "; "> "] 1) (setConn c a) e /\
  SendCommandWaitForList "su" ["Password: "] a e =
    Ok ("Password: ", None) (setConn (setBuffer "" c) a) (mkEnv [] [] []).
Proof.
  cbv zeta.
  pose proof (SendCommandWaitForList_reads_patterns_then_prompt "su"
                ["Password: "] (mkSSHAgent "> " 1 (sessionWith "") true) _
                (mkEnv [0; 500; 600] [Some "Password: "] []) _ []
                eq_refl eq_refl) as H.
  split; [exact (proj1 H)|].
  rewrite (proj1 H). reflexivity.
Defined.

(** * Further properties of the readers *)

(** ** Every call whose deadline passes returns *)

(** Along a sequence of turns that each either stop or continue, with a
    stop known at turn [n], there is a first stop. *)
Lemma first_stop (cont stop : nat -> Prop) (n : nat) :
  (forall j, (j < n)%nat -> cont j \/ stop j) ->
  stop n ->
  exists k, (forall j, (j < k)%nat -> cont j) /\ stop k.
Proof.
  intros Hd Hn.
  assert (H : forall m, (m <= n)%nat ->
            (exists k, (forall j, (j < k)%nat -> cont j) /\ stop k) \/
            (forall j, (j < m)%nat -> cont j)).
  { induction m as [|m IH]; intros Hm; [right; intros j Hj; lia|].
    destruct (IH ltac:(lia)) as [Hk|Hall]; [now left|].
    destruct (Hd m ltac:(lia)) as [Hc|Hs].
    - right. intros j Hj. destruct (Nat.eq_dec j m) as [->|]; [assumption|].
      apply Hall. lia.
    - left. now exists m. }
  destruct (H n (Nat.le_refl n)) as [Hk|Hall]; [assumption|].
  now exists n.
Qed.

Lemma guardsPass_intro (timeout : Z) (e : Env) (k : nat) :
  (forall j, (j < k)%nat -> guardAt timeout e j = Some true) ->
  guardsPass timeout e k = true.
Proof.
  intros Hg. unfold guardsPass. apply forallb_forall. intros j Hj.
  apply in_seq in Hj. now rewrite Hg by lia.
Qed.

Lemma deadlinePasses_guard (timeout : Z) (e : Env) :
  deadlinePasses timeout e = true ->
  exists n, guardAt timeout e n = Some false /\
            forall j, (j < n)%nat -> exists b, guardAt timeout e j = Some b.
Proof.
  unfold deadlinePasses, guardAt.
  destruct (Clock e) as [|startTime readings]; [discriminate|].
  intros Hx. apply existsb_exists in Hx. destruct Hx as (now & Hin & Hnow).
  apply In_nth_error in Hin. destruct Hin as [n Hn]. exists n. split.
  - rewrite Hn. cbn. now apply negb_true_iff in Hnow; rewrite Hnow.
  - intros j Hj.
    destruct (nth_error readings j) as [t|] eqn:Ht; [cbn; eauto|].
    apply nth_error_None in Ht.
    assert ((n < List.length readings)%nat)
      by (apply nth_error_Some; congruence).
    lia.
Qed.

(** A reader around a test that, on every buffer, either finds nothing or
    cuts the buffer in a way related to it by [R]: when the deadline
    passes, the call returns, after some number [k] of turns, either by
    expiry or with the cut made on the buffer of turn [k]. *)
Lemma readWith_total (test : M SSHLib (option string))
    (R : string -> string -> string -> Prop) (timeout : Z) (s : SSHLib)
    (e : Env) :
  (forall b,
     quietAt test s b \/
     exists returnData rest,
       R b returnData rest /\
       forall e', test (setBuffer b s) e'
                  = Ok (Some returnData) (setBuffer rest s) e') ->
  deadlinePasses timeout e = true ->
  exists k,
    readWith test timeout s e =
      Ok (bufferAt s e k, Some ErrNoMatch) (setBuffer "" s) (envAfter e k) \/
    exists returnData rest,
      R (bufferAt s e k) returnData rest /\
      readWith test timeout s e =
        if String.eqb returnData ""
        then Ok (rest, None) (setBuffer "" s) (envAfter e k)
        else Ok (returnData, None) (setBuffer rest s) (envAfter e k).
Proof.
  intros Htest Hd. apply deadlinePasses_guard in Hd.
  destruct Hd as (n & Hn & Hdef).
  pose (found := fun j => exists returnData rest,
           R (bufferAt s e j) returnData rest /\
           forall e', test (setBuffer (bufferAt s e j) s) e'
                      = Ok (Some returnData) (setBuffer rest s) e').
  destruct (first_stop
              (fun j => guardAt timeout e j = Some true /\
                        quietAt test s (bufferAt s e j))
              (fun j => guardAt timeout e j = Some false \/
                        (guardAt timeout e j = Some true /\ found j)) n)
    as (k & Hcont & Hstop).
  - intros j Hj. destruct (Hdef j Hj) as [[|] Hb]; [|now right; left].
    destruct (Htest (bufferAt s e j)) as [Hq|Hf]; [now left|].
    right. right. split; [assumption|exact Hf].
  - now left.
  - exists k.
    assert (Hpass : guardsPass timeout e k = true)
      by (apply guardsPass_intro; intros j Hj; now apply Hcont).
    destruct Hstop as [Hexp|[Hg (rd & rest & HR & Hf)]].
    + left. apply readWith_expires; try assumption.
      intros j Hj. now apply Hcont.
    + right. exists rd, rest. split; [assumption|].
      apply readWith_matches; try assumption.
      * apply guardsPass_intro. intros j Hj.
        destruct (Nat.eq_dec j k) as [->|]; [assumption|].
        apply Hcont. lia.
      * intros j Hj. now apply Hcont.
Qed.

Lemma drop_add (i n : nat) (s : string) : drop n (drop i s) = drop (i + n) s.
Proof.
  revert s; induction i as [|i IH]; intros s; [reflexivity|].
  destruct s as [|c s]; [now destruct n | apply IH].
Qed.

Lemma drop_empty (n : nat) : drop n "" = "".
Proof. now destruct n. Qed.

Lemma take_empty (n : nat) (b : string) : take n b = "" -> n = O \/ b = "".
Proof. destruct n; [now left|]. destruct b; [now right | discriminate]. Qed.

(** What the literal test does on any buffer. *)
Lemma literalTest_cases (str : string) (s : SSHLib) (b : string) :
  quietAt (literalTest str) s b \/
  exists returnData rest,
    (returnData ++ drop (String.length str) rest = b /\
     (returnData = "" -> rest = b)) /\
    forall e', literalTest str (setBuffer b s) e'
               = Ok (Some returnData) (setBuffer rest s) e'.
Proof.
  destruct (strings.indexNat b str) as [i|] eqn:Hi.
  - right. exists (take (i + String.length str) b), (drop i b).
    split; [split|].
    + rewrite drop_add. apply take_drop.
    + intros Ht. apply take_empty in Ht. destruct Ht as [Ht| ->].
      * now replace i with O by lia.
      * now rewrite drop_empty.
    + intros e'. now apply literalTest_found.
  - left. apply literalTest_quiet. unfold literalQuiet. apply negb_true_iff.
    destruct (strings.Contains b str) eqn:Hc; [|reflexivity].
    apply Contains_indexNat in Hc. destruct Hc as [i Hc]. congruence.
Qed.

(** X1.  Whenever some reading of the clock is past the deadline,
    [ReadUntil] returns -- it neither panics nor runs out of the trace --
    with a nil error or [ErrNoMatch], changes nothing of the session but
    its buffer, and accounts for every byte: the buffer of the turn at
    which it returns is the text returned followed by the buffer kept less
    the copy of the target at its head. *)
Theorem ReadUntil_returns_and_accounts (str : string) (timeout : Z)
    (s : SSHLib) (e : Env) :
  deadlinePasses timeout e = true ->
  exists k output err rest,
    ReadUntil str timeout s e =
      Ok (output, err) (setBuffer rest s) (envAfter e k) /\
    output ++ drop (String.length str) rest = bufferAt s e k /\
    (err = None \/ err = Some ErrNoMatch).
Proof.
  intros Hd.
  destruct (readWith_total (literalTest str)
              (fun b rd rest => rd ++ drop (String.length str) rest = b /\
                                (rd = "" -> rest = b))
              timeout s e (literalTest_cases str s) Hd)
    as (k & [Hexp|(rd & rest & [HR Hz] & Hrun)]);
    rewrite ReadUntil_readWith; exists k.
  - exists (bufferAt s e k), (Some ErrNoMatch), "". split; [assumption|].
    split; [|now right]. rewrite drop_empty. apply append_nil_r.
  - destruct (String.eqb_spec rd "") as [Hrd|Hrd].
    + exists rest, None, "". split; [assumption|]. split; [|now left].
      rewrite drop_empty, append_nil_r. now apply Hz.
    + exists rd, None, rest. split; [assumption|]. split; [assumption|now left].
Qed.

Lemma ReadUntil_returns_and_accounts_witness :
  exists k output err rest,
    ReadUntil "$ " 1 (sessionWith "ls")
      (mkEnv [0; 10; 20; 5000] [Some "out$ tail"] []) =
      Ok (output, err) (setBuffer rest (sessionWith "ls"))
         (envAfter (mkEnv [0; 10; 20; 5000] [Some "out$ tail"] []) k) /\
    output ++ drop (String.length "$ ") rest =
      bufferAt (sessionWith "ls")
               (mkEnv [0; 10; 20; 5000] [Some "out$ tail"] []) k /\
    (err = None \/ err = Some ErrNoMatch).
Proof.
  exact (ReadUntil_returns_and_accounts "$ " 1 (sessionWith "ls")
           (mkEnv [0; 10; 20; 5000] [Some "out$ tail"] []) eq_refl).
Defined.

Section Totality.

Context {engine : RegexpEngine}.

Lemma regexTest_cases (re : Regexp) (s : SSHLib) (b : string) :
  quietAt (regexTest re) s b \/
  exists returnData rest,
    returnData ++ rest = b /\
    forall e', regexTest re (setBuffer b s) e'
               = Ok (Some returnData) (setBuffer rest s) e'.
Proof.
  destruct (FindStringIndex re b) as [[lo hi]|] eqn:Hf.
  - right. exists (take (Z.to_nat hi) b), (drop (Z.to_nat hi) b).
    split; [apply take_drop|].
    intros e'. now apply (regexTest_found re b lo hi).
  - left. apply regexTest_quiet. unfold regexQuiet. apply negb_true_iff.
    destruct (MatchString re b) eqn:Hm; [|reflexivity].
    apply MatchString_iff in Hm. congruence.
Qed.

(** X2.  Whenever the pattern compiles and some reading of the clock is
    past the deadline, [ReadUntilRegex] returns with a nil error or
    [ErrNoMatch], changes nothing of the session but its buffer, and
    neither loses nor invents a byte: the text returned followed by the
    buffer kept is the buffer at entry followed by all that was received. *)
Theorem ReadUntilRegex_returns_and_conserves (regexStr : string) (re : Regexp)
    (timeout : Z) (s : SSHLib) (e : Env) :
  Compile regexStr = Some re ->
  deadlinePasses timeout e = true ->
  exists k output err rest,
    ReadUntilRegex regexStr timeout s e =
      Ok (output, err) (setBuffer rest s) (envAfter e k) /\
    output ++ rest = bufferAt s e k /\
    (err = None \/ err = Some ErrNoMatch).
Proof.
  intros Hre Hd.
  destruct (readWith_total (regexTest re) (fun b rd rest => rd ++ rest = b)
              timeout s e (regexTest_cases re s) Hd)
    as (k & [Hexp|(rd & rest & HR & Hrun)]);
    rewrite (ReadUntilRegex_readWith _ re) by assumption; exists k.
  - exists (bufferAt s e k), (Some ErrNoMatch), "". split; [assumption|].
    split; [apply append_nil_r | now right].
  - destruct (String.eqb_spec rd "") as [Hrd|Hrd].
    + exists rest, None, "". split; [assumption|]. split; [|now left].
      rewrite append_nil_r. now rewrite <- HR, Hrd.
    + exists rd, None, rest. split; [assumption|]. split; [assumption|now left].
Qed.

(** A scan of a list whose patterns all compile: it cannot panic, it only
    ever cuts the buffer, and what it returns followed by what it keeps is
    a final part of the buffer it started from. *)
Lemma scanList_valid (regexList : list string) :
  allCompile regexList = true ->
  forall returnData foundMatch b s,
  exists returnData' foundMatch' rest,
    (forall e, scanList (map Compile regexList) returnData foundMatch
                        (setBuffer b s) e
               = Ok (returnData', foundMatch') (setBuffer rest s) e) /\
    (foundMatch' = false ->
     foundMatch = false /\ returnData' = returnData /\ rest = b) /\
    (forall whole lost, whole = lost ++ returnData ++ b ->
       exists lost', whole = lost' ++ returnData' ++ rest).
Proof.
  induction regexList as [|p l IH]; intros Hall rd fm b s.
  - exists rd, fm, b. repeat split; eauto.
  - cbn [allCompile forallb] in Hall. apply andb_true_iff in Hall.
    destruct Hall as [Hp Hl]. cbn [map scanList].
    destruct (Compile p) as [re|]; [|discriminate]. run.
    cbn [setBuffer Buffer].
    destruct (FindStringIndex re b) as [[lo hi]|] eqn:Hf.
    + replace (MatchString re b) with true
        by (symmetry; apply MatchString_iff; congruence).
      destruct (IH Hl (take (Z.to_nat hi) b) true (drop (Z.to_nat hi) b) s)
        as (rd' & fm' & rest & Hrun & Hfalse & Hinv).
      exists rd', fm', rest. split; [|split].
      * intros e. rewrite (cutAtMatchEnd_found re b lo hi) by assumption.
        rewrite setBuffer_twice. apply Hrun.
      * intros Hfm. apply Hfalse in Hfm. destruct Hfm as [Hfm _].
        discriminate.
      * intros whole lost ->. apply (Hinv _ (lost ++ rd)).
        rewrite !append_assoc. now rewrite take_drop.
    + replace (MatchString re b) with false
        by (symmetry; destruct (MatchString re b) eqn:Hm; [|reflexivity];
            apply MatchString_iff in Hm; congruence).
      apply (IH Hl).
Qed.

Lemma listTest_cases (regexList : list string) (s : SSHLib) (b : string) :
  allCompile regexList = true ->
  quietAt (listTest (map Compile regexList)) s b \/
  exists returnData rest,
    (exists lost, b = lost ++ returnData ++ rest) /\
    forall e', listTest (map Compile regexList) (setBuffer b s) e'
               = Ok (Some returnData) (setBuffer rest s) e'.
Proof.
  intros Hall.
  destruct (scanList_valid regexList Hall "" false b s)
    as (rd & [|] & rest & Hrun & Hfalse & Hinv).
  - right. exists rd, rest. split; [now apply (Hinv b "")|].
    intros e'. unfold listTest. run. now rewrite Hrun.
  - left. destruct (Hfalse eq_refl) as (_ & -> & ->).
    intros e'. unfold listTest. run. now rewrite Hrun.
Qed.

(** X3.  Whenever every pattern of the list compiles and some reading of
    the clock is past the deadline, [ReadUntilRegexList] returns with a nil
    error or [ErrNoMatch], changes nothing of the session but its buffer,
    and invents and reorders no byte: the text returned followed by the
    buffer kept is a final part of the buffer of the turn at which it
    returns (bytes before it may be dropped). *)
Theorem ReadUntilRegexList_returns_final_part (regexList : list string)
    (timeout : Z) (s : SSHLib) (e : Env) :
  allCompile regexList = true ->
  deadlinePasses timeout e = true ->
  exists k output err rest lost,
    ReadUntilRegexList regexList timeout s e =
      Ok (output, err) (setBuffer rest s) (envAfter e k) /\
    bufferAt s e k = lost ++ output ++ rest /\
    (err = None \/ err = Some ErrNoMatch).
Proof.
  intros Hall Hd.
  destruct (readWith_total (listTest (map Compile regexList))
              (fun b rd rest => exists lost, b = lost ++ rd ++ rest)
              timeout s e
              (fun b => listTest_cases regexList s b Hall) Hd)
    as (k & [Hexp|(rd & rest & [lost HR] & Hrun)]);
    rewrite ReadUntilRegexList_readWith; exists k.
  - exists (bufferAt s e k), (Some ErrNoMatch), "", "".
    split; [assumption|]. split; [now rewrite append_nil_r | now right].
  - destruct (String.eqb_spec rd "") as [Hrd|Hrd].
    + exists rest, None, "", lost. split; [assumption|]. split; [|now left].
      rewrite append_nil_r. now rewrite HR, Hrd.
    + exists rd, None, rest, lost. split; [assumption|].
      split; [assumption|now left].
Qed.

End Totality.

Lemma ReadUntilRegex_returns_and_conserves_witness :
  exists k output err rest,
    ReadUntilRegex "> " 1 (sessionWith "ls")
      (mkEnv [0; 10; 20; 5000] [Some "out> tail"] []) =
      Ok (output, err) (setBuffer rest (sessionWith "ls"))
         (envAfter (mkEnv [0; 10; 20; 5000] [Some "out> tail"] []) k) /\
    output ++ rest =
      bufferAt (sessionWith "ls")
               (mkEnv [0; 10; 20; 5000] [Some "out> tail"] []) k /\
    (err = None \/ err = Some ErrNoMatch).
Proof.
  exact (ReadUntilRegex_returns_and_conserves "> " "> " 1 (sessionWith "ls")
           (mkEnv [0; 10; 20; 5000] [Some "out> tail"] []) eq_refl eq_refl).
Defined.

Lemma ReadUntilRegexList_returns_final_part_witness :
  exists k output err rest lost,
    ReadUntilRegexList ["a"; "b"] 1 (sessionWith "xayb")
      (mkEnv [0; 10; 5000] [] []) =
      Ok (output, err) (setBuffer rest (sessionWith "xayb"))
         (envAfter (mkEnv [0; 10; 5000] [] []) k) /\
    bufferAt (sessionWith "xayb") (mkEnv [0; 10; 5000] [] []) k
      = lost ++ output ++ rest /\
    (err = None \/ err = Some ErrNoMatch).
Proof.
  exact (ReadUntilRegexList_returns_final_part ["a"; "b"] 1
           (sessionWith "xayb") (mkEnv [0; 10; 5000] [] []) eq_refl eq_refl).
Defined.

(** ** The literal reader keeps the target *)

Lemma HasPrefix_take (s sub : string) :
  strings.HasPrefix s sub = true -> take (String.length sub) s = sub.
Proof.
  revert s; induction sub as [|p sub IH]; intros [|c s]; cbn;
    try reflexivity; try discriminate.
  rewrite andb_true_iff. intros [Hc Hp].
  apply Ascii.eqb_eq in Hc. subst p. now rewrite IH.
Qed.

Lemma indexNat_HasPrefix (s sub : string) :
  strings.HasPrefix s sub = true -> strings.indexNat s sub = Some O.
Proof. intros Hp. destruct s; cbn [strings.indexNat]; now rewrite Hp. Qed.

(** The parts of a text around the occurrence found. *)
Lemma indexNat_parts (s sub : string) (i : nat) :
  strings.indexNat s sub = Some i ->
  String.length (take i s) = i /\
  take (i + String.length sub) s = take i s ++ sub /\
  drop i s = sub ++ drop (i + String.length sub) s.
Proof.
  revert i; induction s as [|c s IH]; intros i; cbn [strings.indexNat].
  - destruct (strings.HasPrefix "" sub) eqn:Hp; [|discriminate].
    intros [= <-]. cbn [take drop Nat.add append String.length].
    split; [reflexivity|]. split; [now apply HasPrefix_take|].
    now apply HasPrefix_split.
  - destruct (strings.HasPrefix (String c s) sub) eqn:Hp.
    + intros [= <-]. cbn [take drop Nat.add append String.length].
      split; [reflexivity|]. split; [now apply HasPrefix_take|].
      now apply HasPrefix_split.
    + destruct (strings.indexNat s sub) as [j|] eqn:Hj; [|discriminate].
      intros [= <-]. destruct (IH j eq_refl) as (H1 & H2 & H3).
      cbn [take drop Nat.add append String.length].
      now rewrite H1, H2, H3.
Qed.

(** X4.  When [ReadUntil] finds a non-empty target, at whichever turn, the
    buffer of that turn being [before ++ str ++ after] with the first
    occurrence of [str] shown, it returns [before ++ str] with a nil error
    and keeps [str ++ after]: the target stays at the head of the buffer. *)
Theorem ReadUntil_target_stays_in_buffer (str : string) (timeout : Z)
    (s : SSHLib) (e : Env) (k i : nat) :
  str <> "" ->
  guardsPass timeout e (S k) = true ->
  quietBefore (literalQuiet str) s e k = true ->
  strings.indexNat (bufferAt s e k) str = Some i ->
  exists before after,
    bufferAt s e k = before ++ str ++ after /\
    String.length before = i /\
    ReadUntil str timeout s e =
      Ok (before ++ str, None) (setBuffer (str ++ after) s) (envAfter e k).
Proof.
  intros Hne Hg Hq Hi.
  destruct (indexNat_parts _ _ _ Hi) as (Hlen & Htake & Hdrop).
  exists (take i (bufferAt s e k)),
         (drop (i + String.length str) (bufferAt s e k)).
  split; [now apply indexNat_split|]. split; [assumption|].
  rewrite <- Htake, <- Hdrop. apply ReadUntil_found; try assumption.
  destruct str; [congruence | cbn; lia].
Qed.

Lemma ReadUntil_target_stays_in_buffer_witness :
  exists before after,
    bufferAt (sessionWith "ls") (mkEnv [0; 10; 20] [Some "out$ tail"] []) 1
      = before ++ "$ " ++ after /\
    String.length before = 5%nat /\
    ReadUntil "$ " 1 (sessionWith "ls")
      (mkEnv [0; 10; 20] [Some "out$ tail"] []) =
      Ok (before ++ "$ ", None) (setBuffer ("$ " ++ after) (sessionWith "ls"))
         (envAfter (mkEnv [0; 10; 20] [Some "out$ tail"] []) 1).
Proof.
  exact (ReadUntil_target_stays_in_buffer "$ " 1 (sessionWith "ls")
           (mkEnv [0; 10; 20] [Some "out$ tail"] []) 1 5
           ltac:(discriminate) eq_refl eq_refl eq_refl).
Defined.

(** X5.  On a buffer that begins with the non-empty target -- as the
    buffer does after any [ReadUntil] that found it -- [ReadUntil] returns
    exactly the target and leaves the session as it was: calling it again
    never gets past the target. *)
Theorem ReadUntil_again_returns_only_target (str : string) (timeout : Z)
    (s : SSHLib) (e : Env) :
  str <> "" ->
  strings.HasPrefix (Buffer s) str = true ->
  guardsPass timeout e 1 = true ->
  ReadUntil str timeout s e = Ok (str, None) s (envAfter e 0).
Proof.
  intros Hne Hp Hg.
  rewrite (ReadUntil_found str timeout s e O O); try assumption;
    try reflexivity.
  - rewrite bufferAt_0. cbn [Nat.add drop]. rewrite HasPrefix_take by assumption.
    now rewrite setBuffer_same.
  - rewrite bufferAt_0. now apply indexNat_HasPrefix.
  - destruct str; [congruence | cbn; lia].
Qed.

Lemma ReadUntil_again_returns_only_target_witness :
  ReadUntil "$ " 1 (sessionWith "$ tail") (mkEnv [0; 10] [Some "more"] []) =
  Ok ("$ ", None) (sessionWith "$ tail")
     (envAfter (mkEnv [0; 10] [Some "more"] []) 0).
Proof.
  exact (ReadUntil_again_returns_only_target "$ " 1 (sessionWith "$ tail")
           (mkEnv [0; 10] [Some "more"] []) ltac:(discriminate)
           eq_refl eq_refl).
Defined.

(** ** The list reader and the single-pattern reader *)

Lemma poll_ext (test1 test2 : M SSHLib (option string))
    (startTime timeoutMs : Z) :
  (forall s e, test1 s e = test2 s e) ->
  forall turns s e,
    poll turns test1 startTime timeoutMs s e =
    poll turns test2 startTime timeoutMs s e.
Proof.
  intros Heq. induction turns as [|turns IH]; intros s e; [reflexivity|].
  cbn [poll]. run.
  destruct (getTimestamp s e) as [now s1 e1| |]; try reflexivity.
  destruct (inTime startTime timeoutMs now); [|reflexivity].
  rewrite Heq. destruct (test2 s1 e1) as [[rd|] s2 e2| |]; try reflexivity.
  destruct (GetData s2 e2) as [[] s3 e3| |]; try reflexivity. apply IH.
Qed.

Section ListReader.

Context {engine : RegexpEngine}.

(** X6.  With a list of one pattern that compiles, [ReadUntilRegexList] is
    [ReadUntilRegex] on that pattern: the same result, session and use of
    the clock and the channel, on every input. *)
Theorem ReadUntilRegexList_singleton (regexStr : string) (re : Regexp)
    (timeout : Z) (s : SSHLib) (e : Env) :
  Compile regexStr = Some re ->
  ReadUntilRegexList [regexStr] timeout s e =
  ReadUntilRegex regexStr timeout s e.
Proof.
  intros Hre. rewrite ReadUntilRegexList_readWith.
  rewrite (ReadUntilRegex_readWith _ re) by assumption.
  unfold readWith. run.
  destruct (getTimestamp s e) as [startTime s1 e1| |]; try reflexivity.
  rewrite (poll_ext (listTest (map Compile [regexStr])) (regexTest re));
    [reflexivity|].
  intros s2 e2. cbn [map]. rewrite Hre. unfold listTest, regexTest.
  cbn [scanList]. run.
  destruct (MatchString re (Buffer s2)); [|reflexivity].
  destruct (cutAtMatchEnd re (Buffer s2) s2 e2); reflexivity.
Qed.

(** A scan of patterns that compile and do not match leaves [returnData],
    [foundMatch] and the state as they are. *)
Lemma scanList_passes (regexList : list string) (returnData : string)
    (foundMatch : bool) (s : SSHLib) (e : Env) :
  listQuiet regexList (Buffer s) = true ->
  scanList (map Compile regexList) returnData foundMatch s e =
  Ok (returnData, foundMatch) s e.
Proof.
  induction regexList as [|p l IH]; cbn [listQuiet forallb map scanList];
    [reflexivity|].
  rewrite andb_true_iff. intros [Hp Hl].
  destruct (Compile p) as [re|]; [|discriminate].
  apply negb_true_iff in Hp. run. rewrite Hp. now apply IH.
Qed.

(** X7.  The earliest pattern of the list that matches decides the result
    when no pattern after it matches what it leaves: if the patterns before
    [p] compile and do not match the buffer, [p] matches it with an end
    offset [hi] greater than zero, and the patterns after [p] compile and do
    not match [Buffer[hi:]], then [ReadUntilRegexList] returns
    [Buffer[:hi]] with a nil error and keeps [Buffer[hi:]]. *)
Theorem ReadUntilRegexList_first_match_decides (before after : list string)
    (p : string) (re : Regexp) (timeout : Z) (s : SSHLib) (e : Env) (k : nat)
    (lo hi : Z) :
  Compile p = Some re ->
  guardsPass timeout e (S k) = true ->
  quietBefore (listQuiet (before ++ p :: after)) s e k = true ->
  listQuiet before (bufferAt s e k) = true ->
  FindStringIndex re (bufferAt s e k) = Some (lo, hi) ->
  0 < hi ->
  listQuiet after (drop (Z.to_nat hi) (bufferAt s e k)) = true ->
  ReadUntilRegexList (before ++ p :: after) timeout s e =
  Ok (take (Z.to_nat hi) (bufferAt s e k), None)
     (setBuffer (drop (Z.to_nat hi) (bufferAt s e k)) s) (envAfter e k) /\
  take (Z.to_nat hi) (bufferAt s e k) ++ drop (Z.to_nat hi) (bufferAt s e k)
  = bufferAt s e k.
Proof.
  intros Hre Hg Hq Hb Hf Hpos Ha. split; [|apply take_drop].
  assert (Hbd := FindStringIndex_bounds _ _ _ _ Hf).
  rewrite ReadUntilRegexList_readWith.
  rewrite (readWith_matches _ _ _ _ k
             (take (Z.to_nat hi) (bufferAt s e k))
             (drop (Z.to_nat hi) (bufferAt s e k))); try assumption.
  - rewrite take_nonempty by lia. reflexivity.
  - intros j Hj. apply listTest_quiet.
    now apply (quietBefore_spec _ _ _ _ Hq).
  - intros e'. unfold listTest. unfold bind at 1.
    rewrite map_app, scanList_app. unfold bind at 1.
    rewrite scanList_passes by (cbn [setBuffer Buffer]; assumption).
    cbn [fst snd map scanList]. rewrite Hre. run. cbn [setBuffer Buffer].
    replace (MatchString re (bufferAt s e k)) with true
      by (symmetry; apply MatchString_iff; congruence).
    rewrite (cutAtMatchEnd_found re _ lo hi) by assumption.
    rewrite setBuffer_twice.
    rewrite scanList_passes by (cbn [setBuffer Buffer]; assumption).
    reflexivity.
Qed.

End ListReader.

Lemma ReadUntilRegexList_singleton_witness :
  ReadUntilRegexList ["> "] 1 (sessionWith "ls")
    (mkEnv [0; 10; 20] [Some "out> tail"] []) =
  ReadUntilRegex "> " 1 (sessionWith "ls")
    (mkEnv [0; 10; 20] [Some "out> tail"] []).
Proof.
  exact (ReadUntilRegexList_singleton "> " "> " 1 (sessionWith "ls")
           (mkEnv [0; 10; 20] [Some "out> tail"] []) eq_refl).
Defined.

Lemma ReadUntilRegexList_first_match_decides_witness :
  ReadUntilRegexList ["# "; "a"; "x"] 1 (sessionWith "xayb")
    (mkEnv [0; 10] [] []) =
  Ok ("xa", None) (setBuffer "yb" (sessionWith "xayb"))
     (envAfter (mkEnv [0; 10] [] []) 0) /\
  "xa" ++ "yb" = "xayb".
Proof.
  exact (ReadUntilRegexList_first_match_decides ["# "] ["x"] "a" "a" 1
           (sessionWith "xayb") (mkEnv [0; 10] [] []) 0 1 2
           eq_refl eq_refl eq_refl eq_refl eq_refl eq_refl eq_refl).
Defined.

(** ** A timeout that is not positive *)



Section NonPositiveTimeout.

Context {engine : RegexpEngine}.


End NonPositiveTimeout.


(** ** Receiving *)

Lemma received_app (l1 l2 : list (option string)) :
  received (l1 ++ l2) = received l1 ++ received l2.
Proof.
  induction l1 as [|[d|] l1 IH]; cbn [app received]; [reflexivity| |exact IH].
  now rewrite IH, append_assoc.
Qed.

(** X9.  [n] calls of [GetData] in a row append to the buffer the chunks
    found by the [n] receive attempts, in the order of their arrival, and
    nothing else; they consume exactly those attempts. *)
Theorem GetDataTimes_appends_in_order (n : nat) :
  forall s e,
    GetDataTimes n s e =
    Ok tt (setBuffer (Buffer s ++ received (firstn n (Chan e))) s)
       (setChan (skipn n (Chan e)) e).
Proof.
  induction n as [|n IH]; intros s e.
  - cbn [GetDataTimes firstn skipn received]. unfold ret.
    rewrite append_nil_r, setBuffer_same. now destruct e.
  - cbn [GetDataTimes]. run. unfold GetData.
    destruct (Chan e) as [|[data|] c] eqn:Hc.
    + rewrite IH, Hc. rewrite firstn_nil, skipn_nil. cbn [firstn skipn].
      reflexivity.
    + rewrite IH. cbn [setBuffer Buffer setChan Chan firstn skipn received].
      now rewrite append_assoc.
    + rewrite IH. cbn [setBuffer Buffer setChan Chan firstn skipn received].
      reflexivity.
Qed.

(** * Further properties of the agent *)

Section AgentErrors.

Context {engine : RegexpEngine}.

Lemma Open_dial_fails (s : SSHLib) (e : Env) (d : list bool) :
  Dial e = false :: d ->
  Open s e = Ok (Some ErrNoConnection) s (setDial d e).
Proof. intros Hd. unfold Open. now rewrite Hd. Qed.

(** X10.  On an agent that is not connected, when the dial fails, every
    sending operation returns [ErrLostConnection] -- with the empty text
    where it returns a text -- and does nothing else: the agent and its
    session are unchanged, nothing is written, and neither the clock nor
    the channel is read. *)
Theorem send_without_connection_fails (command : string)
    (regexList : list string) (a : SSHAgent) (e : Env) (d : list bool) :
  Connected a = false ->
  Dial e = false :: d ->
  SendCommandNoWait command a e =
    Ok (Some ErrLostConnection) (setConn (Conn a) a) (setDial d e) /\
  SendCommand command a e =
    Ok ("", Some ErrLostConnection) (setConn (Conn a) a) (setDial d e) /\
  SendCommandStripCommand command a e =
    Ok ("", Some ErrLostConnection) (setConn (Conn a) a) (setDial d e) /\
  SendCommandWaitForList command regexList a e =
    Ok ("", Some ErrLostConnection) (setConn (Conn a) a) (setDial d e) /\
  setConn (Conn a) a = a.
Proof.
  intros Hc Hd.
  assert (Hnw : SendCommandNoWait command a e =
                Ok (Some ErrLostConnection) (setConn (Conn a) a) (setDial d e)).
  { unfold SendCommandNoWait, Connect. run. rewrite Hc. cbn [negb].
    unfold onConn. now rewrite (Open_dial_fails _ _ d Hd). }
  assert (Hsc : SendCommand command a e =
                Ok ("", Some ErrLostConnection) (setConn (Conn a) a)
                   (setDial d e))
    by (unfold SendCommand; run; now rewrite Hnw).
  repeat split; try assumption.
  - unfold SendCommandStripCommand. run. now rewrite Hsc.
  - unfold SendCommandWaitForList. run. now rewrite Hnw.
  - now destruct a.
Qed.

(** X11.  When the dial succeeds but the prompt does not show before the
    three seconds of [Open] expire, [Connect] returns [ErrNoPrompt] and
    leaves the agent not connected, although the session has been opened;
    the text received while waiting has been taken out of the buffer and
    is not returned to anyone. *)
Theorem Connect_without_prompt (a : SSHAgent) (e : Env) (d : list bool)
    (re : Regexp) (k : nat) :
  Connected a = false ->
  Dial e = true :: d ->
  Compile (PromptReg (Conn a)) = Some re ->
  guardsPass 3 e k = true ->
  guardAt 3 e k = Some false ->
  quietBefore (regexQuiet re) (Conn a) e k = true ->
  exists a' e',
    Connect a e = Ok (Some ErrNoPrompt) a' e' /\
    Connected a' = false /\
    Stdin (Conn a') = Some [] /\
    Buffer (Conn a') = "" /\
    Chan e' = skipn k (Chan e).
Proof.
  intros Hc Hd Hre Hg Hexp Hq.
  eexists. eexists. split.
  - unfold Connect. run. rewrite Hc. cbn [negb]. unfold onConn, Open.
    rewrite Hd. run. cbn [setStdin PromptReg].
    rewrite (ReadUntilRegex_expires _ re 3 (setStdin (Some []) (Conn a))
               (setDial d e) k Hre Hg Hexp Hq).
    reflexivity.
  - cbn. rewrite Hc. repeat split; reflexivity.
Qed.


(** X13.  When the dial succeeds and the prompt pattern matches, at
    whichever turn, with an end offset greater than zero, [Connect]
    returns nil and marks the agent connected; the session is writable,
    the text up to the end of the prompt is dropped, and the buffer holds
    what followed the prompt. *)
Theorem Connect_finds_prompt (a : SSHAgent) (e : Env) (d : list bool)
    (re : Regexp) (k : nat) (lo hi : Z) :
  Connected a = false ->
  Dial e = true :: d ->
  Compile (PromptReg (Conn a)) = Some re ->
  guardsPass 3 e (S k) = true ->
  quietBefore (regexQuiet re) (Conn a) e k = true ->
  FindStringIndex re (bufferAt (Conn a) e k) = Some (lo, hi) ->
  0 < hi ->
  exists a' e',
    Connect a e = Ok None a' e' /\
    Connected a' = true /\
    Stdin (Conn a') = Some [] /\
    Buffer (Conn a') = drop (Z.to_nat hi) (bufferAt (Conn a) e k) /\
    Chan e' = skipn k (Chan e).
Proof.
  intros Hc Hd Hre Hg Hq Hf Hpos.
  assert (Hb := FindStringIndex_bounds _ _ _ _ Hf).
  eexists. eexists. split.
  - unfold Connect. run. rewrite Hc. cbn [negb]. unfold onConn, Open.
    rewrite Hd. run. cbn [setStdin PromptReg].
    rewrite (ReadUntilRegex_readWith _ re) by assumption.
    rewrite (readWith_matches _ _ _ _ k
               (take (Z.to_nat hi) (bufferAt (Conn a) e k))
               (drop (Z.to_nat hi) (bufferAt (Conn a) e k)));
      try assumption.
    + rewrite take_nonempty by lia. reflexivity.
    + intros j Hj. apply regexTest_quiet.
      now apply (quietBefore_spec _ _ _ _ Hq).
    + intros e'. now apply (regexTest_found re _ lo hi).
  - cbn. repeat split; reflexivity.
Qed.

(** X14.  Once a [Connect] has returned nil, the agent is connected and
    a further [Connect] does nothing: it does not dial, and changes
    neither the agent nor the environment. *)
Theorem Connect_once (a a0 : SSHAgent) (e e0 : Env) :
  Connect a e = Ok None a0 e0 ->
  Connected a0 = true /\ forall e', Connect a0 e' = Ok None a0 e'.
Proof.
  intros Hc.
  assert (Hconn : Connected a0 = true).
  { revert Hc. unfold Connect. run.
    destruct (Connected a) eqn:Ha; cbn [negb].
    - now intros [= <- _].
    - unfold onConn. destruct (Open (Conn a) e) as [[err|] c e1| |];
        try discriminate. now intros [= <- _]. }
  split; [assumption|].
  intros e'. unfold Connect. run. now rewrite Hconn.
Qed.

(** X15.  An agent marked connected by [SetConnected] whose session was
    never opened has no standard input: sending a command panics with a
    nil dereference, without dialling. *)
Theorem SetConnected_without_Open_panics (command : string) (a : SSHAgent)
    (e : Env) :
  Stdin (Conn a) = None ->
  bind (SetConnected true) (fun _ => SendCommandNoWait command) a e
  = Panic nilDeref /\
  bind (SetConnected true) (fun _ => SendCommand command) a e
  = Panic nilDeref.
Proof.
  intros Hs.
  assert (Hnw : bind (SetConnected true)
                  (fun _ => SendCommandNoWait command) a e = Panic nilDeref).
  { unfold SetConnected, SendCommandNoWait, Connect. run.
    cbn [setConnected Connected negb]. run. unfold onConn, Write. run.
    cbn [Conn setConnected]. now rewrite Hs. }
  split; [assumption|].
  revert Hnw. unfold SetConnected, SendCommand. run.
  now intros ->.
Qed.

End AgentErrors.

Lemma send_without_connection_witness :
  let a := mkSSHAgent "> " 1 (CreateSSH "host" "22" "user" "secret" "> " 1)
                      false in
  let e := mkEnv [0; 10] [Some "x"] [false] in
  SendCommand "ls" a e = Ok ("", Some ErrLostConnection) a (mkEnv [0; 10] [Some "x"] []) /\
  SendCommandWaitForList "ls" ["# "] a e =
    Ok ("", Some ErrLostConnection) a (mkEnv [0; 10] [Some "x"] []).
Proof.
  cbv zeta.
  pose proof (send_without_connection_fails "ls" ["# "]
                (mkSSHAgent "> " 1
                   (CreateSSH "host" "22" "user" "secret" "> " 1) false)
                (mkEnv [0; 10] [Some "x"] [false]) [] eq_refl eq_refl) as H.
  split; [exact (proj1 (proj2 H))|].
  exact (proj1 (proj2 (proj2 (proj2 H)))).
Defined.

Lemma Connect_without_prompt_witness :
  exists a' e',
    Connect (mkSSHAgent "> " 1
               (CreateSSH "host" "22" "user" "secret" "> " 1) false)
            (mkEnv [0; 1000; 3000] [Some "Welcome"] [true])
    = Ok (Some ErrNoPrompt) a' e' /\
    Connected a' = false /\
    Stdin (Conn a') = Some [] /\
    Buffer (Conn a') = "" /\
    Chan e' = skipn 1 [Some "Welcome"].
Proof.
  exact (Connect_without_prompt
           (mkSSHAgent "> " 1
              (CreateSSH "host" "22" "user" "secret" "> " 1) false)
           (mkEnv [0; 1000; 3000] [Some "Welcome"] [true]) [] "> " 1
           eq_refl eq_refl eq_refl eq_refl eq_refl eq_refl).
Defined.


Lemma Connect_finds_prompt_witness :
  exists a' e',
    Connect (mkSSHAgent "> " 1
               (CreateSSH "host" "22" "user" "secret" "> " 1) false)
            (mkEnv [0; 10; 20] [Some "Welcome> x"] [true])
    = Ok None a' e' /\
    Connected a' = true /\
    Stdin (Conn a') = Some [] /\
    Buffer (Conn a') = drop (Z.to_nat 9) "Welcome> x" /\
    Chan e' = skipn 1 [Some "Welcome> x"].
Proof.
  exact (Connect_finds_prompt
           (mkSSHAgent "> " 1
              (CreateSSH "host" "22" "user" "secret" "> " 1) false)
           (mkEnv [0; 10; 20] [Some "Welcome> x"] [true]) [] "> " 1 7 9
           eq_refl eq_refl eq_refl eq_refl eq_refl eq_refl eq_refl).
Defined.

Lemma Connect_once_witness :
  Connected (mkSSHAgent "> " 1 (sessionWith "") true) = true /\
  forall e', Connect (mkSSHAgent "> " 1 (sessionWith "") true) e'
             = Ok None (mkSSHAgent "> " 1 (sessionWith "") true) e'.
Proof.
  exact (Connect_once (mkSSHAgent "> " 1 (sessionWith "") true)
           (mkSSHAgent "> " 1 (sessionWith "") true)
           (mkEnv [] [] []) (mkEnv [] [] []) eq_refl).
Defined.

Lemma SetConnected_without_Open_witness :
  let a := mkSSHAgent "> " 1 (CreateSSH "host" "22" "user" "secret" "> " 1)
                      false in
  bind (SetConnected true) (fun _ => SendCommandNoWait "ls") a
       (mkEnv [0] [] [true]) = Panic nilDeref /\
  bind (SetConnected true) (fun _ => SendCommand "ls") a
       (mkEnv [0] [] [true]) = Panic nilDeref.
Proof.
  exact (SetConnected_without_Open_panics "ls"
           (mkSSHAgent "> " 1
              (CreateSSH "host" "22" "user" "secret" "> " 1) false)
           (mkEnv [0] [] [true]) eq_refl).
Defined.

(** ** Writing, then reading *)

(** X16.  On a session that was never opened [WriteThenReadUntil] panics
    at the write, before reading the clock.  On an opened session, whenever
    some reading of the clock is past the deadline, it returns; the string
    sent and a line feed have been written once, after what was written
    before, and the bytes are accounted for as by [ReadUntil]. *)
Theorem WriteThenReadUntil_writes_once (sendStr matchStr : string)
    (timeout : Z) (s : SSHLib) (e : Env) :
  (Stdin s = None ->
   WriteThenReadUntil sendStr matchStr timeout s e = Panic nilDeref) /\
  (forall written,
     Stdin s = Some written ->
     deadlinePasses timeout e = true ->
     exists k output err rest,
       WriteThenReadUntil sendStr matchStr timeout s e =
         Ok (output, err)
            (setBuffer rest
               (setStdin (Some (written ++ [(sendStr ++ nl)%string])%list) s))
            (envAfter e k) /\
       output ++ drop (String.length matchStr) rest = bufferAt s e k /\
       (err = None \/ err = Some ErrNoMatch)).
Proof.
  split.
  - intros Hs. unfold WriteThenReadUntil, Write. run. now rewrite Hs.
  - intros written Hs Hd.
    set (s1 := setStdin (Some (written ++ [(sendStr ++ nl)%string])%list) s).
    assert (Hw : WriteThenReadUntil sendStr matchStr timeout s e =
                 readWith (literalTest matchStr) timeout s1 e).
    { unfold WriteThenReadUntil, Write. run. rewrite Hs. run.
      apply ReadUntil_readWith. }
    rewrite Hw.
    destruct (readWith_total (literalTest matchStr)
                (fun b rd rest =>
                   rd ++ drop (String.length matchStr) rest = b /\
                   (rd = "" -> rest = b))
                timeout s1 e (literalTest_cases matchStr s1) Hd)
      as (k & [Hexp|(rd & rest & [HR Hz] & Hrun)]); exists k.
    + exists (bufferAt s1 e k), (Some ErrNoMatch), "". split; [assumption|].
      split; [|now right]. rewrite drop_empty. apply append_nil_r.
    + destruct (String.eqb_spec rd "") as [Hrd|Hrd].
      * exists rest, None, "". split; [assumption|]. split; [|now left].
        rewrite drop_empty, append_nil_r. now apply Hz.
      * exists rd, None, rest. split; [assumption|].
        split; [assumption|now left].
Qed.

Lemma WriteThenReadUntil_writes_once_witness :
  WriteThenReadUntil "ls" "$ " 1
    (CreateSSH "host" "22" "user" "secret" "> " 1) (mkEnv [0; 10] [] [])
  = Panic nilDeref /\
  exists k output err rest,
    WriteThenReadUntil "ls" "$ " 1 (sessionWith "")
      (mkEnv [0; 10; 5000] [Some "out$ "] []) =
      Ok (output, err)
         (setBuffer rest
            (setStdin (Some ([] ++ [("ls" ++ nl)%string])%list)
                      (sessionWith "")))
         (envAfter (mkEnv [0; 10; 5000] [Some "out$ "] []) k) /\
    output ++ drop (String.length "$ ") rest =
      bufferAt (sessionWith "") (mkEnv [0; 10; 5000] [Some "out$ "] []) k /\
    (err = None \/ err = Some ErrNoMatch).
Proof.
  split.
  - exact (proj1 (WriteThenReadUntil_writes_once "ls" "$ " 1
                    (CreateSSH "host" "22" "user" "secret" "> " 1)
                    (mkEnv [0; 10] [] [])) eq_refl).
  - exact (proj2 (WriteThenReadUntil_writes_once "ls" "$ " 1 (sessionWith "")
                    (mkEnv [0; 10; 5000] [Some "out$ "] []))
                 [] eq_refl eq_refl).
Defined.

(** ** Stripping the echoed command *)

Lemma Contains_empty (s : string) : strings.Contains s "" = true.
Proof. apply Contains_indexNat. exists O. now destruct s. Qed.

Lemma no_line_feed (output : string) :
  strings.Contains output nl = false ->
  firstLine output = output /\ afterFirstLine output = "".
Proof.
  intros Hc. assert (Hnl := indexNat_nl output).
  destruct (strings.indexNat output nl) as [m|] eqn:Hm.
  - assert (strings.Contains output nl = true)
      by (apply Contains_indexNat; eauto).
    congruence.
  - destruct Hnl as [H1 H2]. split; [now symmetry | assumption].
Qed.

Section StripCommand.

Context {engine : RegexpEngine}.

(** X17.  Two edges of [SendCommandStripCommand], [SendCommand] having
    returned [output].  With the empty command the first line is always
    removed, whatever it holds.  When the output has no line feed and
    contains the command, the whole output is removed and the empty text
    is returned. *)
Theorem SendCommandStripCommand_edges (command output : string)
    (a a' : SSHAgent) (e e' : Env) :
  SendCommand command a e = Ok (output, None) a' e' ->
  (command = "" ->
   SendCommandStripCommand command a e = Ok (afterFirstLine output, None) a' e')
  /\
  (strings.Contains output nl = false ->
   strings.Contains output command = true ->
   SendCommandStripCommand command a e = Ok ("", None) a' e').
Proof.
  intros Hsc.
  assert (Hrun : SendCommandStripCommand command a e =
                 Ok (if strings.Contains (firstLine output) command
                     then afterFirstLine output else output, None) a' e').
  { unfold SendCommandStripCommand. run. rewrite Hsc.
    destruct (Split_lines output) as (rest & -> & <-).
    now destruct (strings.Contains (firstLine output) command). }
  split.
  - intros ->. now rewrite Hrun, Contains_empty.
  - intros Hnl Hc. destruct (no_line_feed output Hnl) as [H1 H2].
    now rewrite Hrun, H1, Hc, H2.
Qed.

End StripCommand.

Lemma SendCommandStripCommand_edges_witness :
  let a := mkSSHAgent "> " 1 (sessionWith "ls -l> ") true in
  let e := mkEnv [0; 10] [] [] in
  SendCommandStripCommand "ls" a e =
  Ok ("", None)
     (setConn (setBuffer "" (setStdin (Some [("ls" ++ nl)%string])
                                      (sessionWith "ls -l> "))) a)
     (mkEnv [] [] []).
Proof.
  exact (proj2 (SendCommandStripCommand_edges "ls" "ls -l> "
                  (mkSSHAgent "> " 1 (sessionWith "ls -l> ") true) _
                  (mkEnv [0; 10] [] []) _ eq_refl)
               eq_refl eq_refl).
Defined.
